(** * Treeherder: the Perfherder / Sherlock settings and the alerting core

    The first part embeds the constants of [treeherder/config/settings.py]
    that configure Perfherder's alert detection and Sherlock's backfilling,
    together with the part of Python's [datetime.timedelta] they go through.
    Python's [int] is unbounded and is read as [Z]; a [dict] with string keys
    is a [gmap string _]; a [list] of strings is a [list string]. *)

From Stdlib Require Import ZArith Bool Lia Floats Ascii.
From stdpp Require Import base gmap strings list fin_maps pretty.

Local Open Scope Z_scope.

(** ** Python's [datetime.timedelta], for integer arguments *)

Module Timedelta.

(** A [timedelta] object stores three normalised integers:
    [0 <= seconds < 86400] and [0 <= microseconds < 1000000]. *)
Record timedelta : Type := mk {
  days : Z;
  seconds : Z;
  microseconds : Z
}.

(** Python's [divmod] on integers is floor division, which is what
    [Z.div] and [Z.modulo] are for a positive divisor. *)
Definition divmod (a b : Z) : Z * Z := (a / b, a mod b).

(** [timedelta(days, seconds, microseconds, milliseconds, minutes, hours,
    weeks)]: the constructor folds weeks into days, minutes and hours into
    seconds, milliseconds into microseconds, then carries microseconds into
    seconds and seconds into days. More than 999999999 days in either
    direction is an [OverflowError], here [None]. *)
Definition new (days seconds microseconds milliseconds minutes hours weeks : Z)
  : option timedelta :=
  let days := days + weeks * 7 in
  let seconds := seconds + minutes * 60 + hours * 3600 in
  let microseconds := microseconds + milliseconds * 1000 in
  let '(d1, s1) := divmod seconds (24 * 3600) in
  let d := days + d1 in
  let '(s2, us) := divmod microseconds 1000000 in
  let '(d2, s2) := divmod s2 (24 * 3600) in
  let d := d + d2 in
  let s := s1 + s2 in
  let '(d3, s) := divmod s (24 * 3600) in
  let d := d + d3 in
  if 999999999 <? Z.abs d then None else Some (mk d s us).

(** The keyword forms the settings module uses. *)
Definition of_weeks (w : Z) : option timedelta := new 0 0 0 0 0 0 w.
Definition of_days (d : Z) : option timedelta := new d 0 0 0 0 0 0.
Definition of_hours (h : Z) : option timedelta := new 0 0 0 0 0 h 0.

(** The duration in microseconds, the integer that [total_seconds()]
    divides by [10**6] and that comparisons of durations and subtraction of
    instants work on. *)
Definition total_microseconds (t : timedelta) : Z :=
  (days t * 86400 + seconds t) * 1000000 + microseconds t.

(** [total_seconds()] for a duration of whole seconds. *)
Definition whole_seconds (t : timedelta) : option Z :=
  if microseconds t =? 0 then Some (days t * 86400 + seconds t) else None.

End Timedelta.

Abbreviation timedelta := Timedelta.timedelta.

(** ** The settings module *)

(** [assert cond, msg] at module level: the load goes on, or stops with an
    [AssertionError] carrying the message. *)
Definition py_assert (cond : bool) (msg : string) : string + unit :=
  if cond then inr tt else inl msg.

(** Celery: periodically publish runtime statistics on statsd (in minutes). *)
Definition CELERY_STATS_PUBLICATION_DELAY : Z := 5.

(** The condition of the assertion that follows the delay, as a function of
    the delay: [0 < d < 60 and 60 % 10 == 0]. The chained comparison is
    [0 < d and d < 60]. *)
Definition stats_publication_delay_condition (d : Z) : bool :=
  ((0 <? d) && (d <? 60)) && (60 mod 10 =? 0).

Definition stats_publication_delay_assertion (d : Z) : string + unit :=
  py_assert (stats_publication_delay_condition d)
            "Celery task must be a valid cron delay in minutes".

(** Perfherder: default minimum regression threshold, in percent. *)
Definition PERFHERDER_REGRESSION_THRESHOLD : Z := 2.

(** Settings of the t-test sliding window alert algorithm. *)
Definition PERFHERDER_ALERTS_MIN_BACK_WINDOW : Z := 12.
Definition PERFHERDER_ALERTS_MAX_BACK_WINDOW : Z := 24.
Definition PERFHERDER_ALERTS_FORE_WINDOW : Z := 12.

(** Assessing whether tests should be (non)sheriffed. *)
Definition QUANTIFYING_PERIOD : option timedelta := Timedelta.of_weeks 24.
Definition BUG_COOLDOWN_TIME : option timedelta := Timedelta.of_weeks 2.

(** Only generate alerts for data newer than this. *)
Definition PERFHERDER_ALERTS_MAX_AGE : option timedelta := Timedelta.of_weeks 2.

(** Sherlock (the performance sheriff robot). *)
Definition SUPPORTED_PLATFORMS : list string := ["windows"; "linux"; "osx"]%string.

Definition MAX_BACKFILLS_PER_PLATFORM : gmap string Z :=
  <["osx" := 20]> (<["linux" := 200]> (<["windows" := 200]> ∅)).

Definition RESET_BACKFILL_LIMITS : option timedelta := Timedelta.of_hours 24.
Definition TIME_TO_MATURE : option timedelta := Timedelta.of_hours 4.

(** An instant is a number of microseconds since the epoch, the resolution
    of Python's [datetime]. *)
Abbreviation instant := Z.

(** A configured duration in microseconds ([0] stands for a constructor that
    raised, which none of the shipped durations does). *)
Definition duration_us (d : option timedelta) : Z :=
  default 0 (Timedelta.total_microseconds <$> d).

(** The alert generation that applies [PERFHERDER_ALERTS_MAX_AGE] is not
    part of the settings module; by the comment on the setting, alerts are
    only generated for data newer than this age. [ts] is the instant of a
    data point, [now] that of the run. *)
Definition within_alerts_max_age (now ts : instant) : bool :=
  now - duration_us PERFHERDER_ALERTS_MAX_AGE <? ts.

(** ** The rest of the settings module

    What the module computes from its inputs. The values read through
    [environ.Env] and [furl] are inputs of the definitions that use them:
    [DEBUG], [LOGGING_LEVEL], [SITE_URL], the parsed database settings. *)

(** The duration that the arguments of [timedelta(...)] ask for, in
    microseconds. *)
Definition requested_microseconds
    (days seconds microseconds milliseconds minutes hours weeks : Z) : Z :=
  (((weeks * 7 + days) * 24 + hours) * 60 + minutes) * 60000000
  + seconds * 1000000 + milliseconds * 1000 + microseconds.

(** Truth value of a [str]: only the empty string is falsy. *)
Definition str_truthy (s : string) : bool := negb (String.eqb s "").

(** Truth value of a [str] or [None]. *)
Definition opt_str_truthy (o : option string) : bool :=
  match o with
  | Some s => str_truthy s
  | None => false
  end.

(** [INSTALLED_APPS]: the list literal, and the two [append]s under
    [if DEBUG]. *)
Definition INSTALLED_APPS_literal : list string :=
  [ "django.contrib.auth"; "django.contrib.contenttypes";
    "django.contrib.postgres.search"; "whitenoise.runserver_nostatic";
    "django.contrib.staticfiles"; "rest_framework"; "corsheaders";
    "django_filters"; "dockerflow.django"; "treeherder.model";
    "treeherder.webapp"; "treeherder.log_parser"; "treeherder.etl";
    "treeherder.perf"; "treeherder.intermittents_commenter";
    "treeherder.changelog" ]%string.

Definition INSTALLED_APPS (DEBUG : bool) : list string :=
  if DEBUG
  then (INSTALLED_APPS_literal ++ ["debug_toolbar"%string]) ++ ["django_extensions"%string]
  else INSTALLED_APPS_literal.

(** An element of the list the [MIDDLEWARE] comprehension runs over: a
    [str], or [False]. *)
Inductive str_or_false : Type :=
  | Str (s : string)
  | PyFalse.

Definition truthy (v : str_or_false) : bool :=
  match v with
  | Str s => str_truthy s
  | PyFalse => false
  end.

Definition MIDDLEWARE_candidates (DEBUG : bool) : list str_or_false :=
  [ Str "treeherder.middleware.NewRelicMiddleware";
    Str "django.middleware.security.SecurityMiddleware";
    Str "django.middleware.clickjacking.XFrameOptionsMiddleware";
    Str "corsheaders.middleware.CorsMiddleware";
    Str "treeherder.middleware.CustomWhiteNoise";
    Str "django.middleware.gzip.GZipMiddleware";
    (if DEBUG then Str "debug_toolbar.middleware.DebugToolbarMiddleware" else PyFalse);
    Str "django.contrib.sessions.middleware.SessionMiddleware";
    Str "django.middleware.common.CommonMiddleware";
    Str "django.middleware.csrf.CsrfViewMiddleware";
    Str "django.contrib.auth.middleware.AuthenticationMiddleware";
    Str "dockerflow.django.middleware.DockerflowMiddleware" ].

(** [[middleware for middleware in [...] if middleware]]. *)
Definition MIDDLEWARE (DEBUG : bool) : list string :=
  omap (λ m, if truthy m
             then match m with Str s => Some s | PyFalse => None end
             else None)
       (MIDDLEWARE_candidates DEBUG).

(** [DATABASES]. A database configuration is a [dict] from setting names to
    values of any type [V]; [int] embeds the integers. [default_db] is what
    [env.db_url("DATABASE_URL", ...)] returned and [db_url_config] is
    [env.db_url_config]. The loop sets ["CONN_MAX_AGE"] in every entry. *)
Section Databases.
Context {V : Type} (int : Z → V).

Definition DATABASES_before_loop (default_db : gmap string V)
    (UPSTREAM_DATABASE_URL : option string)
    (db_url_config : string → gmap string V) : gmap string (gmap string V) :=
  let databases := <["default"%string := default_db]> ∅ in
  match UPSTREAM_DATABASE_URL with
  | Some url =>
      if str_truthy url
      then <["upstream"%string := db_url_config url]> databases
      else databases
  | None => databases
  end.

Definition DATABASES (default_db : gmap string V)
    (UPSTREAM_DATABASE_URL : option string)
    (db_url_config : string → gmap string V) : gmap string (gmap string V) :=
  (λ db, <["CONN_MAX_AGE"%string := int 300]> db)
    <$> DATABASES_before_loop default_db UPSTREAM_DATABASE_URL db_url_config.

End Databases.

(** The settings of the block under [if SITE_URL.startswith("https://")]. A
    name the module does not bind is [None]. *)
Record HttpsSettings : Type := {
  SECURE_SSL_REDIRECT : option bool;
  SECURE_HSTS_INCLUDE_SUBDOMAINS : option bool;
  SECURE_HSTS_PRELOAD : option bool;
  SECURE_HSTS_SECONDS : option Z;
  CSRF_COOKIE_SECURE : option bool;
  SESSION_COOKIE_SECURE : option bool
}.

(** Python's [a / b] on two integers is the quotient rounded to the nearest
    binary64, ties to even. [round_half_even_div] rounds a quotient of
    positive integers to an integer that way; [true_divide] scales the
    quotient so that the rounded integer has 53 bits and returns it with the
    exponent: the float is [m * 2 ^ e]. For [0 < a], [0 < b] and a quotient
    in the range of normal floats. *)
Definition round_half_even_div (num den : Z) : Z :=
  let q := num / den in
  let r := num mod den in
  if 2 * r <? den then q
  else if den <? 2 * r then q + 1
  else if Z.even q then q else q + 1.

Definition scaled_div (a b e : Z) : Z * Z :=
  if 0 <=? e then (a, b * 2 ^ e) else (a * 2 ^ (- e), b).

Definition true_divide (a b : Z) : Z * Z :=
  let e0 := Z.log2 a - Z.log2 b - 52 in
  let '(n0, d0) := scaled_div a b e0 in
  let e := if n0 / d0 <? 2 ^ 52 then e0 - 1 else e0 in
  let '(n, d) := scaled_div a b e in
  (round_half_even_div n d, e).

(** [int(a / b)] for [0 < b]: the float quotient, truncated toward zero. *)
Definition int_true_divide (a b : Z) : Z :=
  if a =? 0 then 0
  else
    let '(m, e) := true_divide (Z.abs a) b in
    Z.sgn a * (if 0 <=? e then m * 2 ^ e else m / 2 ^ (- e)).

(** [int(timedelta(...).total_seconds())]: [total_seconds()] divides the
    duration in microseconds by [10**6] as a float, and [int] truncates. An
    overflow of the constructor is passed on. *)
Definition int_total_seconds (d : option timedelta) : option Z :=
  (λ t, int_true_divide (Timedelta.total_microseconds t) 1000000) <$> d.

(** The block of lines 266-273 on its own. *)
Definition https_settings (SITE_URL : string) : HttpsSettings :=
  if String.prefix "https://" SITE_URL then
    {| SECURE_SSL_REDIRECT := Some true;
       SECURE_HSTS_INCLUDE_SUBDOMAINS := Some true;
       SECURE_HSTS_PRELOAD := Some true;
       SECURE_HSTS_SECONDS := int_total_seconds (Timedelta.of_days 365);
       CSRF_COOKIE_SECURE := Some true;
       SESSION_COOKIE_SECURE := Some true |}
  else
    {| SECURE_SSL_REDIRECT := None;
       SECURE_HSTS_INCLUDE_SUBDOMAINS := None;
       SECURE_HSTS_PRELOAD := None;
       SECURE_HSTS_SECONDS := None;
       CSRF_COOKIE_SECURE := None;
       SESSION_COOKIE_SECURE := None |}.

(** What the module binds from [SITE_URL]: the host that [furl] finds in it
    (a string or Python's [None]), [ALLOWED_HOSTS], and the HTTPS block. *)
Record SiteSettings : Type := {
  SITE_HOSTNAME : option string;
  ALLOWED_HOSTS : list (option string);
  https : HttpsSettings
}.

(** What the module binds from [SITE_URL], in the order it runs.
    [furl(SITE_URL).host] of line 46 comes first: [furl_host] is that call,
    which returns the host or raises (an out-of-range port, for one, is a
    [ValueError]). [lines_49_to_265] is the outcome of the statements
    between, which read other variables of the environment and can raise on
    them. An exception ends the import of the module where it is raised, so
    the block of lines 266-273 is reached, and its names can be bound, only
    when all that comes before it has returned. *)
Definition site_settings {E : Type} (furl_host : string → E + option string)
    (lines_49_to_265 : E + unit) (SITE_URL : string) : E + SiteSettings :=
  match furl_host SITE_URL with
  | inl exc => inl exc
  | inr host =>
      match lines_49_to_265 with
      | inl exc => inl exc
      | inr _ =>
          inr {| SITE_HOSTNAME := host;
                 ALLOWED_HOSTS := [host; Some "localhost"%string;
                                   Some "127.0.0.1"%string];
                 https := https_settings SITE_URL |}
      end
  end.

(** [furl] by its outcome on the URLs of the examples: a deployment on
    HTTPS, a URL whose port [furl] refuses, and any other URL taken as a
    local one. *)
Definition example_furl_host (url : string) : string + option string :=
  if String.eqb url "https://example.org:99999" then inl "ValueError"%string
  else if String.eqb url "https://treeherder.mozilla.org"
       then inr (Some "treeherder.mozilla.org"%string)
       else inr (Some "localhost"%string).

(** The default of [SITE_URL]. *)
Definition SITE_URL_default : string := "http://localhost:8000".

(** *** Celery *)

(** [Queue(name, Exchange(exchange), routing_key=routing_key)]. *)
Record Queue : Type := {
  queue_name : string;
  queue_exchange : string;
  routing_key : string
}.

Definition CELERY_TASK_QUEUES : list Queue :=
  [ {| queue_name := "default"; queue_exchange := "default";
       routing_key := "default" |};
    {| queue_name := "log_parser"; queue_exchange := "default";
       routing_key := "log_parser.normal" |};
    {| queue_name := "log_parser_fail_raw_sheriffed"; queue_exchange := "default";
       routing_key := "log_parser.failures" |};
    {| queue_name := "log_parser_fail_raw_unsheriffed"; queue_exchange := "default";
       routing_key := "log_parser.failures" |};
    {| queue_name := "log_parser_fail_json_sheriffed"; queue_exchange := "default";
       routing_key := "log_parser.failures" |};
    {| queue_name := "log_parser_fail_json_unsheriffed"; queue_exchange := "default";
       routing_key := "log_parser.failures" |};
    {| queue_name := "pushlog"; queue_exchange := "default";
       routing_key := "pushlog" |};
    {| queue_name := "generate_perf_alerts"; queue_exchange := "default";
       routing_key := "generate_perf_alerts" |};
    {| queue_name := "store_pulse_tasks"; queue_exchange := "default";
       routing_key := "store_pulse_tasks" |};
    {| queue_name := "store_pulse_tasks_classification"; queue_exchange := "default";
       routing_key := "store_pulse_tasks_classification" |};
    {| queue_name := "store_pulse_pushes"; queue_exchange := "default";
       routing_key := "store_pulse_pushes" |};
    {| queue_name := "statsd"; queue_exchange := "default";
       routing_key := "statsd" |} ].

Definition CELERY_TASK_CREATE_MISSING_QUEUES : bool := false.
Definition CELERY_TASK_DEFAULT_QUEUE : string := "default".
Definition CELERY_TASK_SOFT_TIME_LIMIT : Z := 15 * 60.
Definition CELERY_TASK_TIME_LIMIT : Z := CELERY_TASK_SOFT_TIME_LIMIT + 30.

(** A beat schedule: a [timedelta], or [crontab(minute=...)]. *)
Inductive Schedule : Type :=
  | Every (period : option timedelta)
  | Crontab (minute : string).

Record BeatEntry : Type := {
  task : string;
  schedule : Schedule;
  relative : bool;
  options_queue : string
}.

(** [CELERY_BEAT_SCHEDULE], as a function of the publication delay that the
    f-string [f"*/{CELERY_STATS_PUBLICATION_DELAY}"] prints in decimal. *)
Definition CELERY_BEAT_SCHEDULE (delay : Z) : gmap string BeatEntry :=
  <["publish_stats"%string :=
      {| task := "publish-stats"; schedule := Crontab ("*/" +:+ pretty delay);
         relative := true; options_queue := "statsd" |}]>
  (<["fetch-push-logs-every-5-minutes"%string :=
      {| task := "fetch-push-logs"; schedule := Every (Timedelta.new 0 0 0 0 5 0 0);
         relative := true; options_queue := "pushlog" |}]> ∅).

(** *** Disallowed user agents *)

(** The part of Python's [re] that the patterns of [DISALLOWED_USER_AGENTS]
    use: a leading [^], the wildcard [.] and literal characters. *)
Module Re.

Inductive atom : Type :=
  | Chr (c : ascii)
  | AnyChar.

Record pattern : Type := {
  anchored : bool;
  atoms : list atom
}.

Definition newline : ascii := "010"%char.

(** [.] matches any character but a newline. *)
Definition atom_matches (a : atom) (c : ascii) : bool :=
  match a with
  | Chr x => Ascii.eqb x c
  | AnyChar => negb (Ascii.eqb c newline)
  end.

(** The characters with a special meaning, none of which the embedded part
    supports. *)
Definition is_special (c : ascii) : bool :=
  existsb (Ascii.eqb c) (String.list_ascii_of_string "\[](){}*+?|$^").

Fixpoint compile_atoms (s : string) : option (list atom) :=
  match s with
  | EmptyString => Some []
  | String c s' =>
      if Ascii.eqb c "."%char then cons AnyChar <$> compile_atoms s'
      else if is_special c then None
      else cons (Chr c) <$> compile_atoms s'
  end.

(** [re.compile(s)], [None] outside the embedded part. *)
Definition compile (s : string) : option pattern :=
  match s with
  | String "^"%char s' => (λ l, {| anchored := true; atoms := l |}) <$> compile_atoms s'
  | _ => (λ l, {| anchored := false; atoms := l |}) <$> compile_atoms s
  end.

(** A match that starts at the head of [s]. *)
Fixpoint match_here (l : list atom) (s : string) : bool :=
  match l, s with
  | [], _ => true
  | _ :: _, EmptyString => false
  | a :: l', String c s' => atom_matches a c && match_here l' s'
  end.

Fixpoint search_from (l : list atom) (s : string) : bool :=
  match_here l s
  || match s with
     | EmptyString => false
     | String _ s' => search_from l s'
     end.

(** The atoms of a pattern without special characters. *)
Definition literal (p : string) : list atom :=
  map Chr (String.list_ascii_of_string p).

(** [p.search(s)] finds a match: anywhere, or only at the start of the
    string under [^] (the patterns are compiled without [re.MULTILINE]). *)
Definition search (p : pattern) (s : string) : bool :=
  if anchored p then match_here (atoms p) s else search_from (atoms p) s.

End Re.

(** The raw strings of the tuple, compiled. *)
Definition DISALLOWED_USER_AGENTS_patterns : list string :=
  [ "^Go-http-client/"; "^Go 1.1 package http"; "^libcurl/";
    "^Python-urllib/"; "^python-requests/" ]%string.

Definition DISALLOWED_USER_AGENTS : option (list Re.pattern) :=
  mapM Re.compile DISALLOWED_USER_AGENTS_patterns.

(** The test the setting exists for: some pattern's [search] finds a match
    in the [User-Agent] header. *)
Definition disallowed_user_agent (user_agent : string) : bool :=
  match DISALLOWED_USER_AGENTS with
  | Some patterns => existsb (λ p, Re.search p user_agent) patterns
  | None => false
  end.

(** *** Logging *)

(** The values of the [LOGGING] literal: strings, integers, booleans, lists
    and dictionaries with string keys, in the order they are written. *)
Local Unset Elimination Schemes.
Inductive pyval : Type :=
  | PStr (s : string)
  | PInt (z : Z)
  | PBool (b : bool)
  | PList (l : list pyval)
  | PDict (d : list (string * pyval)).
Local Set Elimination Schemes.

Fixpoint assoc (k : string) (d : list (string * pyval)) : option pyval :=
  match d with
  | [] => None
  | (k', v) :: d' => if String.eqb k' k then Some v else assoc k d'
  end.

(** [v[k]] for a dictionary [v], [None] for a missing key. *)
Definition item (k : string) (v : pyval) : option pyval :=
  match v with
  | PDict d => assoc k d
  | _ => None
  end.

(** [v.items()]. *)
Definition items (v : pyval) : list (string * pyval) :=
  match v with
  | PDict d => d
  | _ => []
  end.

(** The strings of a list value. *)
Definition strings (v : pyval) : list string :=
  match v with
  | PList l => omap (λ x, match x with PStr s => Some s | _ => None end) l
  | _ => []
  end.

Definition LOGGING (LOGGING_LEVEL : string) : pyval :=
  PDict
    [ ("version", PInt 1);
      ("disable_existing_loggers", PBool false);
      ("filters",
        PDict [ ("require_debug_true",
                  PDict [ ("()", PStr "django.utils.log.RequireDebugTrue") ]) ]);
      ("formatters",
        PDict [ ("standard",
                  PDict [ ("format",
                            PStr "[%(asctime)s] %(levelname)s [%(name)s:%(lineno)s] %(message)s") ]);
                ("json",
                  PDict [ ("()", PStr "dockerflow.logging.JsonLogFormatter");
                          ("logger_name", PStr "treeherder") ]) ]);
      ("handlers",
        PDict [ ("console",
                  PDict [ ("class", PStr "logging.StreamHandler");
                          ("formatter", PStr "standard") ]);
                ("json",
                  PDict [ ("class", PStr "logging.StreamHandler");
                          ("formatter", PStr "json");
                          ("level", PStr "DEBUG") ]) ]);
      ("loggers",
        PDict [ ("django",
                  PDict [ ("filters", PList [PStr "require_debug_true"]);
                          ("handlers", PList [PStr "console"]);
                          ("level", PStr "INFO");
                          ("propagate", PBool true) ]);
                ("django.request",
                  PDict [ ("handlers", PList [PStr "console"]);
                          ("level", PStr "WARNING");
                          ("propagate", PBool true) ]);
                ("treeherder",
                  PDict [ ("handlers", PList [PStr "console"]);
                          ("level", PStr LOGGING_LEVEL);
                          ("propagate", PBool (negb (String.eqb LOGGING_LEVEL "WARNING"))) ]);
                ("kombu",
                  PDict [ ("handlers", PList [PStr "console"]);
                          ("level", PStr "WARNING") ]);
                ("request.summary",
                  PDict [ ("handlers", PList [PStr "json"]);
                          ("level", PStr "DEBUG") ]) ]) ]%string.

(** A section of the configuration ([LOGGING["handlers"]], ...), and the
    names an entry lists under a key. *)
Definition logging_section (LOGGING_LEVEL key : string) : pyval :=
  default (PDict []) (item key (LOGGING LOGGING_LEVEL)).

Definition names_under (key : string) (entry : pyval) : list string :=
  from_option strings [] (item key entry).

(** *** Paths *)

(** [posixpath.dirname] and [posixpath.join] of two components. *)
Module PosixPath.

Definition is_sep (c : ascii) : bool := Ascii.eqb c "/"%char.

(** [p[:p.rfind("/") + 1]]: the path up to its last separator. *)
Fixpoint upto_last_sep (p : string) : string :=
  match p with
  | EmptyString => EmptyString
  | String c p' =>
      match upto_last_sep p' with
      | EmptyString => if is_sep c then String c EmptyString else EmptyString
      | h => String c h
      end
  end.

(** [s == "/" * len(s)]. *)
Fixpoint all_sep (s : string) : bool :=
  match s with
  | EmptyString => true
  | String c s' => is_sep c && all_sep s'
  end.

(** [s.rstrip("/")]. *)
Fixpoint rstrip_sep (s : string) : string :=
  match s with
  | EmptyString => EmptyString
  | String c s' =>
      match rstrip_sep s' with
      | EmptyString => if is_sep c then EmptyString else String c EmptyString
      | r => String c r
      end
  end.

Definition dirname (p : string) : string :=
  let head := upto_last_sep p in
  if str_truthy head && negb (all_sep head) then rstrip_sep head else head.

Fixpoint endswith_sep (s : string) : bool :=
  match s with
  | EmptyString => false
  | String c EmptyString => is_sep c
  | String _ s' => endswith_sep s'
  end.

Definition join (a b : string) : string :=
  if String.prefix "/" b then b
  else if negb (str_truthy a) || endswith_sep a then a +:+ b
  else a +:+ "/" +:+ b.

End PosixPath.

(** [settings_file] is [abspath(__file__)]. *)
Definition SRC_DIR (settings_file : string) : string :=
  PosixPath.dirname (PosixPath.dirname (PosixPath.dirname settings_file)).

Definition STATIC_ROOT (settings_file : string) : string :=
  PosixPath.join (SRC_DIR settings_file) ".django-static".

Definition WHITENOISE_ROOT (settings_file : string) : string :=
  PosixPath.join (SRC_DIR settings_file) ".build".

Definition TEMPLATES_DIRS (settings_file : string) : list string :=
  [WHITENOISE_ROOT settings_file].

Definition BASE_DIR (settings_file : string) : string := SRC_DIR settings_file.

(** * The alerting core

    The detector, the alert generator, the lifecycle manager, the backfill
    scheduler and the orchestrating tick are not part of the settings module.
    Their definitions below follow the design document, section by section;
    [value] is a binary64 float, as the design has it. *)

(** ** Data model (section 3) *)

(** Modelled from the spec: the DataPoint record of section 3 (the ingestion
    code is not among the sources). *)
Record DataPoint : Type := {
  revision_order : Z;
  value : float;
  timestamp : instant
}.

(** Ordered by [revision_order]; windows are formed by position, so gaps in
    [revision_order] are skipped. *)
Abbreviation SignatureSeries := (list DataPoint).

(** Modelled from the spec: the ChangePoint record of section 3. *)
Record ChangePoint : Type := {
  index : nat;
  before_mean : float;
  after_mean : float;
  before_n : nat;
  after_n : nat;
  t_statistic : float;
  confidence : float
}.

(** ** ChangePointDetector (section 4.1) *)

Module Detector.

(** Modelled from the spec: the unpaired two-sample test of section 4.1.
    The design leaves the test, its confidence and its threshold to the
    implementer (section 9), so they are a component handed to the detector. *)
Record SignificanceTest : Type := {
  statistic : list float → list float → float;
  confidence_of : list float → list float → float;
  significance_threshold : float
}.

(** Modelled from the spec: the detector's configuration (section 4.1). *)
Record Config : Type := {
  min_back_window : nat;
  max_back_window : nat;
  fore_window : nat;
  regression_threshold_pct : float
}.

Definition float_of_nat (n : nat) : float :=
  PrimFloat.of_uint63 (Uint63.of_Z (Z.of_nat n)).

Definition float_of_Z (z : Z) : float :=
  if z <? 0 then PrimFloat.opp (PrimFloat.of_uint63 (Uint63.of_Z (- z)))
  else PrimFloat.of_uint63 (Uint63.of_Z z).

Definition fsum (l : list float) : float := fold_left PrimFloat.add l 0%float.

Definition mean (l : list float) : float :=
  PrimFloat.div (fsum l) (float_of_nat (length l)).

(** A zero-variance window: all values identical. *)
Definition zero_variance (l : list float) : bool :=
  match l with
  | [] => true
  | x :: r => forallb (PrimFloat.eqb x) r
  end.

(** [len] points of the series from position [start] on. *)
Definition window (values : list float) (start len : nat) : list float :=
  take len (drop start values).

(** The relative magnitude [|after - before| / before], in percent. *)
Definition magnitude_pct (before after : float) : float :=
  PrimFloat.mul (PrimFloat.div (PrimFloat.abs (PrimFloat.sub after before)) before)
                100%float.

Section Detect.
Variable T : SignificanceTest.
Variable cfg : Config.

(** Modelled from the spec: the zero-variance edge case of section 4.1,
    read together with the step scenario of section 8. When the values a
    split compares, back and fore window together, are all identical, the
    sample has no variance and no difference of means: the statistic would be
    0/0, and the split is non-significant without computing it. Two windows
    that are each constant at different values are the clean step of the
    scenario, which the design has detected: they keep their statistic. *)
Definition degenerate (back fore : list float) : bool :=
  zero_variance (back ++ fore).

(** The statistic of one split, or [None] when the zero-variance rule
    makes it non-significant without computing the statistic. *)
Definition split_statistic (back fore : list float) : option float :=
  if degenerate back fore then None else Some (statistic T back fore).

(** Candidate split positions: all but the first [min_back_window] and
    the last [fore_window] points. *)
Definition split_positions (n : nat) : list nat :=
  seq (min_back_window cfg) (n - fore_window cfg - min_back_window cfg).

(** Back-window sizes available at position [i]: from
    [min_back_window] to [max_back_window], as far as the series reaches
    back. *)
Definition back_sizes (i : nat) : list nat :=
  seq (min_back_window cfg)
      (S (Nat.min i (max_back_window cfg)) - min_back_window cfg).

(** The explicit loop over the window sizes: keep the size whose
    statistic is largest in absolute value. *)
Definition pick_best (best : option (nat * float)) (k : nat) (t : option float)
  : option (nat * float) :=
  match t, best with
  | None, _ => best
  | Some t, None => Some (k, t)
  | Some t, Some (k0, t0) =>
      if PrimFloat.ltb (PrimFloat.abs t0) (PrimFloat.abs t)
      then Some (k, t) else best
  end.

Definition best_back (values : list float) (i : nat) : option (nat * float) :=
  let fore := window values i (fore_window cfg) in
  fold_left
    (λ best k, pick_best best k (split_statistic (window values (i - k) k) fore))
    (back_sizes i) None.

(** The split at [i], when it passes both thresholds. *)
Definition candidate_at (values : list float) (i : nat) : option ChangePoint :=
  match best_back values i with
  | None => None
  | Some (k, t) =>
      let back := window values (i - k) k in
      let fore := window values i (fore_window cfg) in
      let bm := mean back in
      let am := mean fore in
      if PrimFloat.ltb (significance_threshold T) (PrimFloat.abs t)
         && PrimFloat.ltb (regression_threshold_pct cfg) (magnitude_pct bm am)
      then Some {| index := i; before_mean := bm; after_mean := am;
                   before_n := length back; after_n := length fore;
                   t_statistic := t; confidence := confidence_of T back fore |}
      else None
  end.

(** Merging: a candidate within [fore_window] positions of the last one
    kept is merged with it, and the one with the larger [|t|] stays. The
    accumulator holds the kept candidates, latest first. *)
Definition merge_step (kept : list ChangePoint) (cp : ChangePoint)
  : list ChangePoint :=
  match kept with
  | [] => [cp]
  | last :: rest =>
      if (index cp - index last <=? fore_window cfg)%nat
      then if PrimFloat.ltb (PrimFloat.abs (t_statistic last))
                            (PrimFloat.abs (t_statistic cp))
           then cp :: rest else kept
      else cp :: kept
  end.

Definition merge_overlapping (cps : list ChangePoint) : list ChangePoint :=
  reverse (fold_left merge_step cps []).

(** Modelled from the spec: ChangePointDetector (section 4.1), whose code is
    not among the sources. For each split position the best back window is
    chosen, the split is kept when it passes the significance and the
    regression thresholds, and overlapping candidates are merged. *)
Definition detect (series : SignatureSeries) : list ChangePoint :=
  let values := map value series in
  merge_overlapping (omap (candidate_at values) (split_positions (length values))).

End Detect.

(** Modelled from the spec: Welch's t statistic, the test the design names
    as its intent:
    [(m2 - m1) / sqrt (v1 / n1 + v2 / n2)] with the sample variances. *)
Definition sample_variance (l : list float) : float :=
  let m := mean l in
  PrimFloat.div
    (fsum (map (λ x, PrimFloat.mul (PrimFloat.sub x m) (PrimFloat.sub x m)) l))
    (float_of_nat (length l - 1)).

Definition welch_t (back fore : list float) : float :=
  PrimFloat.div
    (PrimFloat.sub (mean fore) (mean back))
    (PrimFloat.sqrt
       (PrimFloat.add
          (PrimFloat.div (sample_variance back) (float_of_nat (length back)))
          (PrimFloat.div (sample_variance fore) (float_of_nat (length fore))))).

(** Welch's test with a confidence function and a threshold still to be
    calibrated. *)
Definition welch_test (confidence_of : list float → list float → float)
    (threshold : float) : SignificanceTest :=
  {| statistic := welch_t; confidence_of := confidence_of;
     significance_threshold := threshold |}.

(** The detector configuration the settings module ships. *)
Definition shipped_config : Config :=
  {| min_back_window := Z.to_nat PERFHERDER_ALERTS_MIN_BACK_WINDOW;
     max_back_window := Z.to_nat PERFHERDER_ALERTS_MAX_BACK_WINDOW;
     fore_window := Z.to_nat PERFHERDER_ALERTS_FORE_WINDOW;
     regression_threshold_pct := float_of_Z PERFHERDER_REGRESSION_THRESHOLD |}.

(** The series of the step scenario of section 8. *)
Definition step_scenario : list float := [10; 10; 10; 10; 20; 20; 20; 20]%float.

End Detector.

(** A series of the given values at consecutive revisions. *)
Definition series_of (vs : list float) : SignatureSeries :=
  imap (λ i v, {| revision_order := Z.of_nat i; value := v;
                  timestamp := Z.of_nat i |}) vs.

(** ** Alerts (sections 3, 4.2 and 4.3) *)

Inductive AlertState : Type :=
  | raised | confirmed | investigating | matured | bug_filed | dismissed.

Module Alerts.

(** Modelled from the spec: the Alert record of section 3. [confirmed_at]
    is the one addition: the instant that "TIME_TO_MATURE has elapsed since
    confirmation" counts from. *)
Record Alert : Type := {
  id : nat;
  signature_id : nat;
  platform : string;
  revision_order : Z;
  magnitude_pct : float;
  is_regression : bool;
  state : AlertState;
  sheriffed : bool;
  created_at : instant;
  confirmed_at : option instant;
  matured_at : option instant;
  bug_id : option nat;
  cooldown_until : option instant
}.

Definition with_state (st : AlertState) (a : Alert) : Alert :=
  {| id := id a; signature_id := signature_id a; platform := platform a;
     revision_order := revision_order a; magnitude_pct := magnitude_pct a;
     is_regression := is_regression a; state := st; sheriffed := sheriffed a;
     created_at := created_at a; confirmed_at := confirmed_at a;
     matured_at := matured_at a; bug_id := bug_id a;
     cooldown_until := cooldown_until a |}.

Definition with_matured_at (t : instant) (a : Alert) : Alert :=
  {| id := id a; signature_id := signature_id a; platform := platform a;
     revision_order := revision_order a; magnitude_pct := magnitude_pct a;
     is_regression := is_regression a; state := state a; sheriffed := sheriffed a;
     created_at := created_at a; confirmed_at := confirmed_at a;
     matured_at := Some t; bug_id := bug_id a;
     cooldown_until := cooldown_until a |}.

(** An open alert: neither dismissed nor resolved by a filed bug. *)
Definition is_open (a : Alert) : bool :=
  match state a with
  | dismissed | bug_filed => false
  | _ => true
  end.

End Alerts.

Abbreviation Alert := Alerts.Alert.

(** The alerts and the requests of a state are lists that only grow at the
    end. [each_after P prior added]: every element of [added], in order,
    satisfies [P] with respect to [prior] followed by the elements added
    before it. *)
Definition each_after {A : Type} (P : list A → A → Prop) (prior added : list A)
  : Prop :=
  ∀ (k : nat) (x : A), added !! k = Some x → P (prior ++ take k added) x.

(** ** AlertGenerator (section 4.2) *)

Module AlertGenerator.

(** The data a pass generates alerts for: the points of the series that are
    newer than [PERFHERDER_ALERTS_MAX_AGE] at the instant of the pass, in
    their order. The design document does not mention this cutoff; it is the
    one the settings module documents for the setting. *)
Definition recent (now : instant) (series : SignatureSeries) : SignatureSeries :=
  filter (λ p, within_alerts_max_age now (timestamp p) = true) series.

(** The revisions of the data points within [fw] positions of position [i]. *)
Definition revisions_near (series : SignatureSeries) (fw i : nat) : list Z :=
  map revision_order
      (take (i + fw + 1 - (i - fw)) (drop (i - fw) series)).

(** The deduplication rule: an open alert of the same signature and
    platform whose revision lies within [fw] positions of the candidate. *)
Definition is_duplicate (series : SignatureSeries) (fw : nat)
    (sig : nat) (plat : string) (i : nat) (alerts : list Alert) : bool :=
  existsb
    (λ a, Alerts.is_open a
          && bool_decide (Alerts.signature_id a = sig)
          && bool_decide (Alerts.platform a = plat)
          && existsb (Z.eqb (Alerts.revision_order a)) (revisions_near series fw i))
    alerts.

(** "After worse than before", by the polarity of the signature. *)
Definition worse (higher_is_better : bool) (before after : float) : bool :=
  if higher_is_better then PrimFloat.ltb after before
  else PrimFloat.ltb before after.

Definition new_alert (now : instant) (next_id sig : nat) (plat : string)
    (higher_is_better on_allow_list : bool) (p : DataPoint) (cp : ChangePoint)
  : Alert :=
  {| Alerts.id := next_id; Alerts.signature_id := sig; Alerts.platform := plat;
     Alerts.revision_order := revision_order p;
     Alerts.magnitude_pct := Detector.magnitude_pct (before_mean cp) (after_mean cp);
     Alerts.is_regression := worse higher_is_better (before_mean cp) (after_mean cp);
     Alerts.state := raised; Alerts.sheriffed := on_allow_list;
     Alerts.created_at := now; Alerts.confirmed_at := None;
     Alerts.matured_at := None; Alerts.bug_id := None;
     Alerts.cooldown_until := None |}.

(** Modelled from the spec: AlertGenerator (section 4.2), whose code is not
    among the sources. One candidate is suppressed silently when it is a
    duplicate, and gives a new alert in state [raised] otherwise. The alert
    takes the revision of the data point at the candidate's index. *)
Definition consider (now : instant) (series : SignatureSeries) (fw : nat)
    (sig : nat) (plat : string) (higher_is_better on_allow_list : bool)
    (alerts : list Alert) (cp : ChangePoint) : list Alert :=
  match series !! index cp with
  | None => alerts
  | Some p =>
      if is_duplicate series fw sig plat (index cp) alerts then alerts
      else alerts ++ [new_alert now (length alerts) sig plat
                                higher_is_better on_allow_list p cp]
  end.

(** A candidate that [consider] leaves without a new alert: it has no
    data point, or it is a duplicate. *)
Definition covered (series : SignatureSeries) (fw : nat)
    (sig : nat) (plat : string) (alerts : list Alert) (cp : ChangePoint) : bool :=
  match series !! index cp with
  | None => true
  | Some _ => is_duplicate series fw sig plat (index cp) alerts
  end.

End AlertGenerator.

(** ** AlertLifecycleManager (section 4.3): the transitions driven by timers *)

Module Lifecycle.
Import Alerts.

Definition expired (deadline : option instant) (now : instant) : bool :=
  match deadline with
  | Some t => t <=? now
  | None => false
  end.

(** Modelled from the spec: the timer-driven transitions of
    AlertLifecycleManager (section 4.3), whose code is not among the sources.
    [confirmed -> matured] once [TIME_TO_MATURE] has elapsed since
    confirmation; [matured -> dismissed] when no bug was filed within
    [BUG_COOLDOWN_TIME]; [investigating -> dismissed] when [cooldown_until]
    has passed without a bug. The other transitions are triggered by the
    collaborators, not by a timer. *)
Definition advance (now : instant) (a : Alert) : Alert :=
  match state a with
  | confirmed =>
      if expired ((λ t, t + duration_us TIME_TO_MATURE) <$> confirmed_at a) now
      then with_matured_at now (with_state matured a)
      else a
  | matured =>
      match bug_id a with
      | Some _ => a
      | None =>
          if expired ((λ t, t + duration_us BUG_COOLDOWN_TIME) <$> matured_at a) now
          then with_state dismissed a
          else a
      end
  | investigating =>
      match bug_id a with
      | Some _ => a
      | None =>
          if expired (cooldown_until a) now then with_state dismissed a else a
      end
  | raised | bug_filed | dismissed => a
  end.

End Lifecycle.

(** ** BackfillScheduler (section 4.4) *)

Module Backfill.

(** Modelled from the spec: the BackfillRequest record of section 3;
    [failed] is the completed-with-failure mark of the failure handling of
    section 4.4. *)
Record BackfillRequest : Type := {
  alert_id : nat;
  platform : string;
  revision_order : Z;
  requested_at : instant;
  completed_at : option instant;
  failed : bool
}.

(** Modelled from the spec: the state of BackfillScheduler (sections 3 and
    4.4), whose code is not among the sources: the requests in the order
    they were issued, PlatformBackfillBudget (the per-platform counter of
    requests accounted as in flight) and the instant of the last reset. *)
Record State : Type := {
  requests : list BackfillRequest;
  budget : gmap string Z;
  last_reset : instant
}.

Definition initial (startup : instant) : State :=
  {| requests := []; budget := ∅; last_reset := startup |}.

Definition used (b : gmap string Z) (p : string) : Z := default 0 (b !! p).

(** Remaining capacity under [MAX_BACKFILLS_PER_PLATFORM]; a platform
    without a cap has none. *)
Definition has_capacity (b : gmap string Z) (p : string) : bool :=
  match MAX_BACKFILLS_PER_PLATFORM !! p with
  | Some cap => used b p <? cap
  | None => false
  end.

(** Modelled from the spec: admission control (section 4.4). Check and
    consume are one atomic step (section 5). When the budget is exhausted the
    scheduler declines and the state is unchanged. *)
Definition issue (now : instant) (a : nat) (p : string) (rev : Z) (s : State)
  : State :=
  if has_capacity (budget s) p then
    {| requests := requests s ++
         [{| alert_id := a; platform := p; revision_order := rev;
             requested_at := now; completed_at := None; failed := false |}];
       budget := <[p := used (budget s) p + 1]> (budget s);
       last_reset := last_reset s |}
  else s.

(** Modelled from the spec: completion of the [i]-th request (section 4.4),
    with or without failure, or by the fixed timeout, which counts as a
    failure: it marks the request and releases its slot. A request that is
    already completed is left alone. *)
Definition complete (now : instant) (i : nat) (failure : bool) (s : State)
  : State :=
  match requests s !! i with
  | Some q =>
      match completed_at q with
      | Some _ => s
      | None =>
          {| requests :=
               <[i := {| alert_id := alert_id q; platform := platform q;
                         revision_order := revision_order q;
                         requested_at := requested_at q;
                         completed_at := Some now; failed := failure |}]>
                 (requests s);
             budget := <[platform q := used (budget s) (platform q) - 1]> (budget s);
             last_reset := last_reset s |}
      end
  | None => s
  end.

(** Modelled from the spec: the wholesale reset of section 4.4, due every
    [RESET_BACKFILL_LIMITS]: it clears the counters whatever they hold and
    touches no request. *)
Definition reset_due (now : instant) (s : State) : bool :=
  last_reset s + duration_us RESET_BACKFILL_LIMITS <=? now.

Definition reset (now : instant) (s : State) : State :=
  if reset_due now s then
    {| requests := requests s; budget := ∅; last_reset := now |}
  else s.

(** Modelled from the spec: what can happen to the scheduler, one atomic
    operation at a time (section 5: all accesses to the budget are
    serialized). Issuing carries the worker that asks. *)
Inductive Event : Type :=
  | Issue (worker : nat) (now : instant) (a : nat) (p : string) (rev : Z)
  | Completed (now : instant) (i : nat)
  | JobFailed (now : instant) (i : nat)
  | TimedOut (now : instant) (i : nat)
  | ResetTimer (now : instant).

Definition step (s : State) (e : Event) : State :=
  match e with
  | Issue _ now a p rev => issue now a p rev s
  | Completed now i => complete now i false s
  | JobFailed now i => complete now i true s
  | TimedOut now i => complete now i true s
  | ResetTimer now => reset now s
  end.

(** Any interleaving of the workers' operations is a sequence of events. *)
Definition run (s : State) (trace : list Event) : State := fold_left step trace s.

Definition is_reset (e : Event) : bool :=
  match e with ResetTimer _ => true | _ => false end.

(** The requests of platform [p] that are in flight: issued, not completed. *)
Definition is_in_flight (p : string) (q : BackfillRequest) : bool :=
  bool_decide (platform q = p) && bool_decide (completed_at q = None).

Definition count_in_flight (p : string) (l : list BackfillRequest) : Z :=
  Z.of_nat (length (filter (λ q, is_in_flight p q = true) l)).

Definition in_flight (s : State) (p : string) : Z :=
  count_in_flight p (requests s).

(** The counters respect the caps. *)
Definition within_caps (s : State) : Prop :=
  ∀ (p : string) (cap : Z),
    MAX_BACKFILLS_PER_PLATFORM !! p = Some cap → used (budget s) p <= cap.

(** The counters agree with the requests that are in flight. *)
Definition accounted (s : State) : Prop :=
  ∀ p : string, in_flight s p = used (budget s) p.

(** Twenty requests on "osx" from twenty workers in the twenty microseconds
    before the daily reset falls due, the reset, then one more request. *)
Definition overrun_trace : list Event :=
  map (λ k, Issue k (24 * 3600 * 1000000 - 20 + Z.of_nat k) k "osx" (Z.of_nat k))
      (seq 0 20)
  ++ [ResetTimer (24 * 3600 * 1000000);
      Issue 0 (24 * 3600 * 1000000 + 1) 20 "osx" 20].

(** *** Issuing for an alert's missing revisions *)

Definition for_pair (a : nat) (rev : Z) (q : BackfillRequest) : bool :=
  bool_decide (alert_id q = a) && bool_decide (revision_order q = rev).

Definition open_for (a : nat) (rev : Z) (q : BackfillRequest) : bool :=
  for_pair a rev q && bool_decide (completed_at q = None).

Definition failed_for (a : nat) (rev : Z) (q : BackfillRequest) : bool :=
  for_pair a rev q && bool_decide (completed_at q ≠ None) && failed q.

(** The alert has used its one retry: some request of it failed and was
    followed by another request for the same revision. *)
Fixpoint has_retried (a : nat) (reqs : list BackfillRequest) : bool :=
  match reqs with
  | [] => false
  | q :: rest =>
      (failed_for a (revision_order q) q
       && existsb (for_pair a (revision_order q)) rest)
      || has_retried a rest
  end.

(** Modelled from the spec: a request may be issued for a revision with no
    open request (the [completed_at] check of sections 3 and 4.5); after a
    failure, only if the alert has not used its one retry (section 4.4). *)
Definition may_issue (reqs : list BackfillRequest) (a : nat) (rev : Z) : bool :=
  negb (existsb (open_for a rev) reqs)
  && (negb (existsb (failed_for a rev) reqs) || negb (has_retried a reqs)).

Definition issue_for (now : instant) (s : State) (pr : Alert * Z) : State :=
  if may_issue (requests s) (Alerts.id pr.1) pr.2
  then issue now (Alerts.id pr.1) (Alerts.platform pr.1) pr.2 s
  else s.

(** Whether [issue_for] issues a request for the pair in state [s]. *)
Definition issues (s : State) (pr : Alert * Z) : bool :=
  may_issue (requests s) (Alerts.id pr.1) pr.2
  && has_capacity (budget s) (Alerts.platform pr.1).

(** Selection policy: fewer missing points first, then regressions before
    improvements. *)
Definition before_in_priority (x y : Alert * list Z) : bool :=
  (length x.2 <? length y.2)%nat
  || ((length x.2 =? length y.2)%nat
      && (Alerts.is_regression x.1 || negb (Alerts.is_regression y.1))).

Fixpoint insert_by (x : Alert * list Z) (l : list (Alert * list Z))
  : list (Alert * list Z) :=
  match l with
  | [] => [x]
  | y :: r => if before_in_priority x y then x :: l else y :: insert_by x r
  end.

Definition prioritise (l : list (Alert * list Z)) : list (Alert * list Z) :=
  fold_right insert_by [] l.

(** Each request of [issued], in order, was issued at [now] after passing
    the checks of [may_issue] against [prior] and the requests issued before
    it, and is open. *)
Definition issued_in_order (now : instant) (prior issued : list BackfillRequest)
  : Prop :=
  each_after
    (λ reqs q, requested_at q = now ∧ completed_at q = None
               ∧ may_issue reqs (alert_id q) (revision_order q) = true)
    prior issued.

Definition needs_backfill (a : Alert) : bool :=
  match Alerts.state a with
  | raised | confirmed => true
  | _ => false
  end.

End Backfill.

(** ** SheriffBot (section 4.5): one tick of the control loop *)

Module SheriffBot.

(** Modelled from the spec: what a tick reads from the collaborators of
    section 6: the change feed and the series of the ingestion source, and
    the polarity and allow-list of the test metadata service. *)
Record Environment : Type := {
  new_data : list (nat * string);
  get_series : nat → string → SignatureSeries;
  higher_is_better : nat → bool;
  on_allow_list : nat → bool
}.

Record State : Type := {
  alerts : list Alert;
  scheduler : Backfill.State
}.

(** An alert dated consistently with the data: it was created no earlier
    than the data point of its revision was measured, it matured no earlier
    than it was created, and its cooldown ends no earlier than
    [BUG_COOLDOWN_TIME] after its creation. *)
Definition well_dated (env : Environment) (a : Alert) : Prop :=
  (∀ p : DataPoint,
     p ∈ get_series env (Alerts.signature_id a) (Alerts.platform a) →
     revision_order p = Alerts.revision_order a →
     timestamp p <= Alerts.created_at a)
  ∧ (∀ t : instant, Alerts.matured_at a = Some t → Alerts.created_at a <= t)
  ∧ (∀ t : instant, Alerts.cooldown_until a = Some t →
       Alerts.created_at a + duration_us BUG_COOLDOWN_TIME <= t).

Section Tick.
(** The detector behind its contract, the window of the deduplication
    rule, and the revisions around an alert that lack data. *)
Variable detect : SignatureSeries → list ChangePoint.
Variable fore_window : nat.
Variable missing_revisions : SignatureSeries → Z → list Z.

(** Step 2 for one signature with new data. *)
Definition generate (now : instant) (env : Environment)
    (alerts : list Alert) (sp : nat * string) : list Alert :=
  let series := AlertGenerator.recent now (get_series env sp.1 sp.2) in
  fold_left
    (AlertGenerator.consider now series fore_window sp.1 sp.2
       (higher_is_better env sp.1) (on_allow_list env sp.1))
    (detect series) alerts.

(** What step 2 may add after the alerts [prior]: the alert of a candidate,
    found in the recent data of a signature with new data, that the
    deduplication rule does not suppress against [prior]. *)
Definition created_from (now : instant) (env : Environment)
    (prior : list Alert) (a : Alert) : Prop :=
  ∃ (sp : nat * string) (cp : ChangePoint) (p : DataPoint),
    sp ∈ new_data env
    ∧ cp ∈ detect (AlertGenerator.recent now (get_series env sp.1 sp.2))
    ∧ AlertGenerator.recent now (get_series env sp.1 sp.2) !! index cp = Some p
    ∧ AlertGenerator.is_duplicate
        (AlertGenerator.recent now (get_series env sp.1 sp.2))
        fore_window sp.1 sp.2 (index cp) prior = false
    ∧ a = AlertGenerator.new_alert now (length prior) sp.1 sp.2
            (higher_is_better env sp.1) (on_allow_list env sp.1) p cp.

(** Each alert of [created], in order, was created that way after [prior]
    and the alerts created before it. *)
Definition created_in_order (now : instant) (env : Environment)
    (prior created : list Alert) : Prop :=
  each_after (created_from now env) prior created.

(** Step 4: the alerts that wait for data, in priority order, each with
    its missing revisions. *)
Definition eligible (env : Environment) (alerts : list Alert)
  : list (Alert * Z) :=
  let waiting :=
    map (λ a, (a, missing_revisions
                    (get_series env (Alerts.signature_id a) (Alerts.platform a))
                    (Alerts.revision_order a)))
        (filter (λ a, Backfill.needs_backfill a = true) alerts) in
  flat_map (λ x, map (pair x.1) x.2) (Backfill.prioritise waiting).

(** Modelled from the spec: one tick of SheriffBot (section 4.5), whose
    code is not among the sources: detection and alert generation for the
    signatures with new data (on the data within
    [PERFHERDER_ALERTS_MAX_AGE], as the settings module has it), the timer
    step of every alert, then the requests for the alerts that wait for
    data. *)
Definition tick (now : instant) (env : Environment) (s : State) : State :=
  let alerts1 := fold_left (generate now env) (new_data env) (alerts s) in
  let alerts2 := map (Lifecycle.advance now) alerts1 in
  {| alerts := alerts2;
     scheduler := fold_left (Backfill.issue_for now) (eligible env alerts2)
                            (scheduler s) |}.

End Tick.

(** The revisions strictly between the data point before the alert's
    and the alert's own: the gap a backfill fills. *)
Fixpoint gap_before (series : SignatureSeries) (rev : Z) : list Z :=
  match series with
  | p :: (q :: _) as rest =>
      if revision_order q =? rev
      then map (λ k, revision_order p + 1 + Z.of_nat k)
               (seq 0 (Z.to_nat (rev - revision_order p - 1)))
      else gap_before rest rev
  | _ => []
  end.

(** *** A concrete deployment, for the examples *)

Definition example_test : Detector.SignificanceTest :=
  {| Detector.statistic := Detector.welch_t;
     Detector.confidence_of := λ _ _, 0%float;
     Detector.significance_threshold := 7%float |}.

Definition example_config : Detector.Config :=
  {| Detector.min_back_window := 3; Detector.max_back_window := 6;
     Detector.fore_window := 3;
     Detector.regression_threshold_pct :=
       Detector.float_of_Z PERFHERDER_REGRESSION_THRESHOLD |}.

Definition minute : instant := 60 * 1000000.
Definition hour : instant := 60 * minute.
Definition week : instant := 7 * 24 * hour.

(** A noisy step from about 10 to about 20, with revisions 4 and 5
    missing right before the step, measured one point a minute from [t0]
    on. *)
Definition noisy_step (t0 : instant) : SignatureSeries :=
  [ {| revision_order := 0; value := 10; timestamp := t0 |};
    {| revision_order := 1; value := 11; timestamp := t0 + 1 * minute |};
    {| revision_order := 2; value := 10; timestamp := t0 + 2 * minute |};
    {| revision_order := 3; value := 11; timestamp := t0 + 3 * minute |};
    {| revision_order := 6; value := 20; timestamp := t0 + 4 * minute |};
    {| revision_order := 7; value := 21; timestamp := t0 + 5 * minute |};
    {| revision_order := 8; value := 20; timestamp := t0 + 6 * minute |};
    {| revision_order := 9; value := 21; timestamp := t0 + 7 * minute |} ].

Definition example_env (t0 : instant) : Environment :=
  {| new_data := [(1%nat, "linux"%string)];
     get_series := λ _ _, noisy_step t0;
     higher_is_better := λ _, false;
     on_allow_list := λ _, true |}.

Definition example_tick : instant → Environment → State → State :=
  tick (Detector.detect example_test example_config) 3 gap_before.

(** An alert on the step, created at [hour], that matured at [5 * hour] and
    has no bug, and the instant at which its cooldown runs out. *)
Definition stale_alert : Alert :=
  {| Alerts.id := 0; Alerts.signature_id := 1; Alerts.platform := "linux";
     Alerts.revision_order := 6; Alerts.magnitude_pct := 93.5;
     Alerts.is_regression := true; Alerts.state := matured;
     Alerts.sheriffed := true; Alerts.created_at := hour;
     Alerts.confirmed_at := Some hour; Alerts.matured_at := Some (5 * hour);
     Alerts.bug_id := None; Alerts.cooldown_until := None |}.

Definition cooldown_expiry : instant := 5 * hour + 2 * week.

Definition stale_state : State :=
  {| alerts := [stale_alert]; scheduler := Backfill.initial 0 |}.

Definition empty_state : State :=
  {| alerts := []; scheduler := Backfill.initial 0 |}.

(** A matured alert of another signature, and a state that holds it. *)
Definition other_alert : Alert :=
  {| Alerts.id := 0; Alerts.signature_id := 2; Alerts.platform := "linux";
     Alerts.revision_order := 6; Alerts.magnitude_pct := 93.5;
     Alerts.is_regression := true; Alerts.state := matured;
     Alerts.sheriffed := true; Alerts.created_at := hour;
     Alerts.confirmed_at := Some hour; Alerts.matured_at := Some (5 * hour);
     Alerts.bug_id := None; Alerts.cooldown_until := None |}.

Definition busy_state : State :=
  {| alerts := [other_alert]; scheduler := Backfill.initial 0 |}.

End SheriffBot.

(** * Properties of the shipped configuration *)

Section Settings_facts.

Lemma max_backfills_lookup_Some (k : string) (v : Z) :
  MAX_BACKFILLS_PER_PLATFORM !! k = Some v ↔
    (k = "windows"%string ∧ v = 200) ∨ (k = "linux"%string ∧ v = 200)
    ∨ (k = "osx"%string ∧ v = 20).
Proof.
  unfold MAX_BACKFILLS_PER_PLATFORM.
  rewrite !lookup_insert_Some, lookup_empty.
  split.
  - intros [[<- <-]|[? [[<- <-]|[? [[<- <-]|[? ?]]]]]]; auto; discriminate.
  - intros [[-> ->]|[[-> ->]|[-> ->]]].
    + right; split; [done|]. right; split; [done|]. by left.
    + right; split; [done|]. by left.
    + by left.
Qed.

(** The constructor carries seconds into days, also for negative durations. *)
Example timedelta_25_hours :
  Timedelta.of_hours 25 = Some (Timedelta.mk 1 3600 0).
Proof. reflexivity. Qed.

Example timedelta_minus_one_second :
  Timedelta.new 0 (-1) 0 0 0 0 0 = Some (Timedelta.mk (-1) 86399 0).
Proof. reflexivity. Qed.

Example timedelta_overflow : Timedelta.of_weeks 142857143 = None.
Proof. reflexivity. Qed.

Example shipped_durations :
  duration_us TIME_TO_MATURE = 4 * 3600 * 1000000
  ∧ duration_us BUG_COOLDOWN_TIME = 14 * 24 * 3600 * 1000000
  ∧ duration_us QUANTIFYING_PERIOD = 24 * 7 * 24 * 3600 * 1000000.
Proof. by vm_compute. Qed.

Lemma max_backfills_positive (p : string) (cap : Z) :
  MAX_BACKFILLS_PER_PLATFORM !! p = Some cap → 0 < cap.
Proof. rewrite max_backfills_lookup_Some. intros [[_ ->]|[[_ ->]|[_ ->]]]; lia. Qed.

Lemma delay_condition_range (d : Z) :
  stats_publication_delay_condition d = true ↔ 0 < d < 60.
Proof.
  unfold stats_publication_delay_condition.
  rewrite !andb_true_iff, !Z.ltb_lt, Z.eqb_eq.
  split; [tauto | intros ?; split; [done | reflexivity]].
Qed.

(** C1: MAX_BACKFILLS_PER_PLATFORM maps "windows" to 200, "linux" to 200
    and "osx" to 20, and has no other entry. *)
Theorem max_backfills_per_platform_exact :
  MAX_BACKFILLS_PER_PLATFORM !! "windows"%string = Some 200
  ∧ MAX_BACKFILLS_PER_PLATFORM !! "linux"%string = Some 200
  ∧ MAX_BACKFILLS_PER_PLATFORM !! "osx"%string = Some 20
  ∧ size MAX_BACKFILLS_PER_PLATFORM = 3%nat
  ∧ ∀ (k : string) (v : Z),
      MAX_BACKFILLS_PER_PLATFORM !! k = Some v ↔
        (k = "windows"%string ∧ v = 200) ∨ (k = "linux"%string ∧ v = 200)
        ∨ (k = "osx"%string ∧ v = 20).
Proof.
  repeat split; try (by vm_compute); apply max_backfills_lookup_Some.
Qed.

(** C2: the shipped regression threshold, the relative magnitude in
    percent that a change has to exceed, is 2. *)
Theorem regression_threshold_is_two_percent :
  PERFHERDER_REGRESSION_THRESHOLD = 2
  ∧ 0 < PERFHERDER_REGRESSION_THRESHOLD < 100.
Proof. unfold PERFHERDER_REGRESSION_THRESHOLD. lia. Qed.

(** C3: RESET_BACKFILL_LIMITS is exactly 24 hours: the timedelta of one
    day, 86400 seconds. *)
Theorem reset_backfill_limits_is_24_hours :
  RESET_BACKFILL_LIMITS = Some (Timedelta.mk 1 0 0)
  ∧ RESET_BACKFILL_LIMITS = Timedelta.of_days 1
  ∧ Timedelta.whole_seconds <$> RESET_BACKFILL_LIMITS = Some (Some (24 * 3600))
  ∧ duration_us RESET_BACKFILL_LIMITS = 24 * 3600 * 1000000.
Proof. by vm_compute. Qed.

(** C4: the shipped window configuration is 12, 24 and 12; the interval
    of back-window sizes is not empty and the fore window is positive. *)
Theorem shipped_windows_well_formed :
  PERFHERDER_ALERTS_MIN_BACK_WINDOW = 12
  ∧ PERFHERDER_ALERTS_MAX_BACK_WINDOW = 24
  ∧ PERFHERDER_ALERTS_FORE_WINDOW = 12
  ∧ PERFHERDER_ALERTS_MIN_BACK_WINDOW <= PERFHERDER_ALERTS_MAX_BACK_WINDOW
  ∧ 0 < PERFHERDER_ALERTS_FORE_WINDOW
  ∧ (∃ size : Z, PERFHERDER_ALERTS_MIN_BACK_WINDOW <= size
                 <= PERFHERDER_ALERTS_MAX_BACK_WINDOW).
Proof.
  unfold PERFHERDER_ALERTS_MIN_BACK_WINDOW, PERFHERDER_ALERTS_MAX_BACK_WINDOW,
    PERFHERDER_ALERTS_FORE_WINDOW.
  repeat split; try lia. exists 12. lia.
Qed.

(** C8: the platforms with a backfill cap are exactly the supported
    platforms. *)
Theorem caps_cover_supported_platforms :
  dom MAX_BACKFILLS_PER_PLATFORM = list_to_set SUPPORTED_PLATFORMS
  ∧ ∀ p : string,
      p ∈ SUPPORTED_PLATFORMS ↔ is_Some (MAX_BACKFILLS_PER_PLATFORM !! p).
Proof.
  assert (H : ∀ p : string,
    p ∈ SUPPORTED_PLATFORMS ↔ is_Some (MAX_BACKFILLS_PER_PLATFORM !! p)).
  { intros p. unfold SUPPORTED_PLATFORMS, is_Some.
    rewrite !elem_of_cons, elem_of_nil. split.
    - intros [->|[->|[->|[]]]]; eexists; by vm_compute.
    - intros [v Hv]. apply max_backfills_lookup_Some in Hv.
      destruct Hv as [[-> _]|[[-> _]|[-> _]]]; auto. }
  split; [|exact H].
  apply set_eq. intros p. rewrite elem_of_dom, elem_of_list_to_set. by rewrite H.
Qed.

(** C9: the assertion on CELERY_STATS_PUBLICATION_DELAY passes for the
    shipped 5; its second conjunct is the constant true, so the assertion
    accepts exactly the delays between 0 and 60, also those that do not
    divide 60. *)
Theorem stats_delay_assertion_accepts :
  stats_publication_delay_assertion CELERY_STATS_PUBLICATION_DELAY = inr tt
  ∧ (60 mod 10 =? 0) = true
  ∧ (∀ d : Z, stats_publication_delay_condition d = (0 <? d) && (d <? 60))
  ∧ (∀ d : Z, stats_publication_delay_assertion d = inr tt ↔ 0 < d < 60)
  ∧ (∃ d : Z, stats_publication_delay_assertion d = inr tt ∧ 60 mod d ≠ 0).
Proof.
  split; [done|]. split; [done|]. split.
  { intros d. unfold stats_publication_delay_condition.
    change (60 mod 10 =? 0) with true. by rewrite andb_true_r. }
  split.
  - intros d. rewrite <- delay_condition_range.
    unfold stats_publication_delay_assertion, py_assert.
    destruct (stats_publication_delay_condition d); split; congruence.
  - exists 7. by vm_compute.
Qed.

End Settings_facts.

(** * Properties of the backfill scheduler *)

Section Backfill_facts.
Import Backfill.

Lemma used_insert (b : gmap string Z) (p p' : string) (v : Z) :
  used (<[p := v]> b) p' = if decide (p = p') then v else used b p'.
Proof.
  unfold used. destruct (decide (p = p')) as [->|Hne].
  - by rewrite lookup_insert_eq.
  - by rewrite lookup_insert_ne.
Qed.

Lemma used_empty (p : string) : used ∅ p = 0.
Proof. unfold used. by rewrite lookup_empty. Qed.

Lemma has_capacity_spec (b : gmap string Z) (p : string) :
  has_capacity b p = true ↔
    ∃ cap, MAX_BACKFILLS_PER_PLATFORM !! p = Some cap ∧ used b p < cap.
Proof.
  unfold has_capacity. destruct (MAX_BACKFILLS_PER_PLATFORM !! p) as [cap|].
  - rewrite Z.ltb_lt. split; [eauto|]. by intros [? [[= <-] ?]].
  - split; [done|]. by intros [? [? _]].
Qed.

Lemma issue_within_caps now a p rev s :
  within_caps s → within_caps (issue now a p rev s).
Proof.
  intros Hs. unfold issue.
  destruct (has_capacity (budget s) p) eqn:Hc; [|done].
  apply has_capacity_spec in Hc as [cap [Hcap Hlt]].
  intros p' cap' Hp'. cbn. rewrite used_insert.
  destruct (decide (p = p')) as [<-|_]; [|by apply Hs].
  rewrite Hcap in Hp'. injection Hp' as <-. lia.
Qed.

Lemma complete_within_caps now i f s :
  within_caps s → within_caps (complete now i f s).
Proof.
  intros Hs. unfold complete.
  destruct (requests s !! i) as [q|]; [|done].
  destruct (completed_at q); [done|].
  intros p' cap' Hp'. cbn. rewrite used_insert.
  destruct (decide (platform q = p')) as [<-|_]; [|by apply Hs].
  specialize (Hs _ _ Hp'). lia.
Qed.

Lemma reset_within_caps now s : within_caps s → within_caps (reset now s).
Proof.
  intros Hs. unfold reset. destruct (reset_due now s); [|done].
  intros p cap Hp. cbn. rewrite used_empty.
  apply max_backfills_positive in Hp. lia.
Qed.

Lemma step_within_caps s e : within_caps s → within_caps (step s e).
Proof.
  destruct e; cbn;
    auto using issue_within_caps, complete_within_caps, reset_within_caps.
Qed.

Lemma run_within_caps trace s : within_caps s → within_caps (run s trace).
Proof.
  revert s. induction trace as [|e trace IH]; intros s Hs; [done|].
  cbn. apply IH. by apply step_within_caps.
Qed.

Lemma initial_within_caps startup : within_caps (initial startup).
Proof.
  intros p cap Hp. cbn. rewrite used_empty.
  apply max_backfills_positive in Hp. lia.
Qed.

Lemma count_in_flight_app p l1 l2 :
  count_in_flight p (l1 ++ l2) = count_in_flight p l1 + count_in_flight p l2.
Proof. unfold count_in_flight. rewrite filter_app, length_app. lia. Qed.

Lemma count_in_flight_cons p q l :
  count_in_flight p (q :: l) =
    (if is_in_flight p q then 1 else 0) + count_in_flight p l.
Proof.
  unfold count_in_flight. rewrite filter_cons.
  destruct (decide (is_in_flight p q = true)) as [->|Hn].
  - cbn [length]. lia.
  - apply not_true_is_false in Hn. rewrite Hn. lia.
Qed.

Lemma count_in_flight_insert p l i q q' :
  l !! i = Some q →
  count_in_flight p (<[i := q']> l) =
    count_in_flight p l - (if is_in_flight p q then 1 else 0)
    + (if is_in_flight p q' then 1 else 0).
Proof.
  intros Hi.
  rewrite insert_take_drop by (by eapply lookup_lt_Some).
  rewrite <- (take_drop_middle l i q Hi) at 3.
  rewrite !count_in_flight_app, !count_in_flight_cons. lia.
Qed.

Lemma issue_accounted now a p rev s : accounted s → accounted (issue now a p rev s).
Proof.
  intros Hs. unfold issue. destruct (has_capacity (budget s) p); [|done].
  intros p'. specialize (Hs p'). unfold in_flight in *. cbn [requests budget].
  rewrite count_in_flight_app, count_in_flight_cons, used_insert.
  change (count_in_flight p' []) with 0.
  unfold is_in_flight. cbn [platform completed_at].
  rewrite (bool_decide_eq_true_2 (None = None)) by done.
  destruct (decide (p = p')) as [<-|Hne].
  - rewrite bool_decide_eq_true_2 by done. cbn. lia.
  - rewrite bool_decide_eq_false_2 by done. cbn. lia.
Qed.

Lemma complete_accounted now i f s :
  accounted s → accounted (complete now i f s).
Proof.
  intros Hs. unfold complete.
  destruct (requests s !! i) as [q|] eqn:Hi; [|done].
  destruct (completed_at q) eqn:Hq; [done|].
  intros p'. specialize (Hs p'). unfold in_flight in *. cbn [requests budget].
  rewrite (count_in_flight_insert _ _ _ q) by done.
  rewrite used_insert.
  unfold is_in_flight. cbn [platform completed_at]. rewrite Hq.
  rewrite (bool_decide_eq_true_2 (None = None)) by done.
  rewrite (bool_decide_eq_false_2 (Some now = None)) by done.
  rewrite !andb_false_r, !andb_true_r.
  destruct (decide (platform q = p')) as [Heq|Hne].
  - rewrite bool_decide_eq_true_2 by done. subst p'. lia.
  - rewrite bool_decide_eq_false_2 by done. lia.
Qed.

Lemma run_accounted trace s :
  forallb (λ e, negb (is_reset e)) trace = true →
  accounted s → accounted (run s trace).
Proof.
  revert s. induction trace as [|e trace IH]; intros s Hnr Hs; [done|].
  cbn in Hnr. apply andb_true_iff in Hnr as [He Hnr].
  cbn. apply IH; [done|].
  destruct e; cbn in *;
    auto using issue_accounted, complete_accounted; discriminate.
Qed.

Lemma initial_accounted startup : accounted (initial startup).
Proof. intros p. unfold in_flight. cbn. by rewrite used_empty. Qed.

(** C5, as stated, fails: after the daily reset the scheduler admits a
    21st request on "osx" while the first twenty are still in flight. *)
Lemma in_flight_exceeds_cap_after_reset :
  ¬ (∀ (startup : instant) (trace : list Event) (p : string) (cap : Z),
       MAX_BACKFILLS_PER_PLATFORM !! p = Some cap →
       in_flight (run (initial startup) trace) p <= cap).
Proof.
  intros H.
  specialize (H 0 overrun_trace "osx"%string 20 eq_refl).
  vm_compute in H. by apply H.
Qed.

(** C5, amended: in every reachable state, under any interleaving of the
    workers' atomic operations, the budget counter of a platform never
    exceeds its cap; and as long as no reset has happened the counter is
    the number of requests in flight, which is then within the cap. *)
Theorem budget_counter_never_exceeds_cap
    (startup : instant) (trace : list Event) (p : string) (cap : Z) :
  MAX_BACKFILLS_PER_PLATFORM !! p = Some cap →
  used (budget (run (initial startup) trace)) p <= cap
  ∧ (forallb (λ e, negb (is_reset e)) trace = true →
     in_flight (run (initial startup) trace) p
       = used (budget (run (initial startup) trace)) p
     ∧ in_flight (run (initial startup) trace) p <= cap).
Proof.
  intros Hcap.
  assert (Hle : used (budget (run (initial startup) trace)) p <= cap).
  { by apply (run_within_caps trace _ (initial_within_caps startup)). }
  split; [done|]. intros Hnr.
  pose proof (run_accounted trace _ Hnr (initial_accounted startup) p) as Heq.
  split; [done|]. by rewrite Heq.
Qed.

Lemma budget_counter_never_exceeds_cap_witness :
  MAX_BACKFILLS_PER_PLATFORM !! "osx"%string = Some 20
  ∧ used (budget (run (initial 0)
            [Issue 1 5 0 "osx" 41; Issue 2 5 0 "osx" 42; Completed 9 0])) "osx" <= 20
  ∧ in_flight (run (initial 0)
       [Issue 1 5 0 "osx" 41; Issue 2 5 0 "osx" 42; Completed 9 0]) "osx" <= 20.
Proof.
  pose proof (budget_counter_never_exceeds_cap 0
    [Issue 1 5 0 "osx" 41; Issue 2 5 0 "osx" 42; Completed 9 0]
    "osx" 20 eq_refl) as [Hused Hflight].
  split; [reflexivity|]. split; [exact Hused|].
  exact (proj2 (Hflight eq_refl)).
Defined.

(** The run behind the counterexample: the counter restarts at the reset,
    the requests do not. *)
Example overrun_counts :
  in_flight (run (initial 0) overrun_trace) "osx" = 21
  ∧ used (budget (run (initial 0) overrun_trace)) "osx" = 1
  ∧ last_reset (run (initial 0) overrun_trace) = 24 * 3600 * 1000000.
Proof. by vm_compute. Qed.

(** With the budget exhausted and no reset, the 21st request is declined. *)
Example twenty_first_request_declined :
  let full := run (initial 0)
                (map (λ k, Issue k (Z.of_nat k) k "osx" (Z.of_nat k)) (seq 0 20)) in
  issue 30 20 "osx" 20 full = full
  ∧ in_flight (issue 31 20 "osx" 20 (complete 30 3 false full)) "osx" = 20.
Proof. by vm_compute. Qed.

End Backfill_facts.

(** * Folds *)

Section Fold_facts.
Context {S X : Type} (f : S → X → S).

Lemma fold_left_fixed (xs : list X) (s : S) :
  (∀ x, x ∈ xs → f s x = s) → fold_left f xs s = s.
Proof.
  induction xs as [|x xs IH]; intros H; [done|].
  cbn. rewrite (H x) by (by left). apply IH. intros y Hy. apply H. by right.
Qed.

Lemma fold_left_preserves (Q : S → Prop) (xs : list X) (s : S) :
  (∀ s x, Q s → Q (f s x)) → Q s → Q (fold_left f xs s).
Proof.
  intros Hstep. revert s. induction xs as [|x xs IH]; intros s Hs; [done|].
  cbn. apply IH. by apply Hstep.
Qed.

(** What each step establishes for its own element, and no later step
    undoes, holds of every element in the end. *)
Lemma fold_left_establishes (Q : S → X → Prop) (xs : list X) (s : S) (x : X) :
  (∀ s x, Q (f s x) x) →
  (∀ s x y, Q s x → Q (f s y) x) →
  x ∈ xs → Q (fold_left f xs s) x.
Proof.
  intros Hown Hkeep. revert s. induction xs as [|y xs IH]; intros s Hx.
  - by apply elem_of_nil in Hx.
  - cbn. apply elem_of_cons in Hx as [->|Hx]; [|by apply IH].
    apply (fold_left_preserves (λ s, Q s y)); [|apply Hown].
    intros s' z. apply Hkeep.
Qed.

Lemma fold_left_preserves_elem (Q : S → Prop) (xs : list X) (s : S) :
  (∀ s x, x ∈ xs → Q s → Q (f s x)) → Q s → Q (fold_left f xs s).
Proof.
  revert s. induction xs as [|x xs IH]; intros s Hstep Hs; [done|].
  cbn. apply IH.
  - intros s' y Hy. apply Hstep. by right.
  - apply Hstep; [by left | done].
Qed.

End Fold_facts.

Lemma fold_left_ext_elem {S X : Type} (f g : S → X → S) (xs : list X) (s : S) :
  (∀ s x, x ∈ xs → f s x = g s x) → fold_left f xs s = fold_left g xs s.
Proof.
  revert s. induction xs as [|x xs IH]; intros s H; [done|].
  cbn. rewrite (H s x) by (by left). apply IH. intros s' y Hy. apply H. by right.
Qed.

Section Each_after_facts.
Context {A : Type} (P : list A → A → Prop).

Lemma each_after_nil (prior : list A) : each_after P prior [].
Proof. intros k x Hk. by destruct k. Qed.

Lemma each_after_singleton (prior : list A) (x : A) :
  P prior x → each_after P prior [x].
Proof.
  intros Hx k y Hk. destruct k as [|k]; [|by destruct k].
  injection Hk as <-. cbn. by rewrite app_nil_r.
Qed.

Lemma each_after_app (prior l1 l2 : list A) :
  each_after P prior l1 → each_after P (prior ++ l1) l2 →
  each_after P prior (l1 ++ l2).
Proof.
  intros H1 H2 k x Hk. destruct (decide (k < length l1)%nat) as [Hlt|Hge].
  - rewrite lookup_app_l in Hk by done. rewrite take_app_le by lia. by apply H1.
  - rewrite lookup_app_r in Hk by lia. rewrite take_app_ge by lia.
    rewrite app_assoc. by apply H2.
Qed.

Lemma each_after_elem (prior added : list A) (x : A) :
  each_after P prior added → x ∈ added → ∃ k, P (prior ++ take k added) x.
Proof.
  intros H Hx. apply list_elem_of_lookup in Hx as [k Hk]. exists k. by apply H.
Qed.

End Each_after_facts.

(** * Properties of the change-point detector *)

Section Detector_facts.
Import Detector.

Lemma merge_step_elem cfg kept cp x :
  x ∈ merge_step cfg kept cp → x = cp ∨ x ∈ kept.
Proof.
  unfold merge_step. destruct kept as [|last rest].
  - rewrite list_elem_of_singleton. auto.
  - destruct (_ <=? _)%nat.
    + destruct (PrimFloat.ltb _ _); [|auto].
      rewrite !elem_of_cons. intros [?|?]; auto.
    + rewrite elem_of_cons. intros [?|?]; auto.
Qed.

Lemma merge_fold_elem cfg cps kept x :
  x ∈ fold_left (merge_step cfg) cps kept → x ∈ cps ∨ x ∈ kept.
Proof.
  revert kept. induction cps as [|cp cps IH]; intros kept; cbn; [auto|].
  intros H. apply IH in H as [H|H].
  - left. by right.
  - apply merge_step_elem in H as [->|H]; [left; by left | by right].
Qed.

Lemma merge_overlapping_elem cfg cps x :
  x ∈ merge_overlapping cfg cps → x ∈ cps.
Proof.
  unfold merge_overlapping. rewrite elem_of_reverse.
  intros H. apply merge_fold_elem in H as [H|H]; [done|].
  by apply elem_of_nil in H.
Qed.

Lemma candidate_at_index T cfg values i cp :
  candidate_at T cfg values i = Some cp → index cp = i.
Proof.
  unfold candidate_at. destruct (best_back T cfg values i) as [[k t]|]; [|done].
  destruct (_ && _); [|done]. by intros [= <-].
Qed.

(** Every change point the detector emits is the candidate of its own
    split position, so it passed both thresholds there. *)
Lemma detect_elem T cfg series cp :
  cp ∈ detect T cfg series →
  candidate_at T cfg (map value series) (index cp) = Some cp.
Proof.
  unfold detect. intros H. apply merge_overlapping_elem in H.
  apply list_elem_of_omap in H as [i [_ Hi]].
  by rewrite (candidate_at_index _ _ _ _ _ Hi).
Qed.

Lemma detect_exceeds_regression_threshold T cfg series cp :
  cp ∈ detect T cfg series →
  PrimFloat.ltb (regression_threshold_pct cfg)
                (magnitude_pct (before_mean cp) (after_mean cp)) = true.
Proof.
  intros H. apply detect_elem in H. unfold candidate_at in H.
  destruct (best_back _ _ _ _) as [[k t]|]; [|done].
  destruct (PrimFloat.ltb (significance_threshold T) _); [|done].
  cbn in H.
  destruct (PrimFloat.ltb (regression_threshold_pct cfg) _) eqn:Hm; [|done].
  injection H as <-. exact Hm.
Qed.

(** With the shipped configuration, an emitted change point has a relative
    magnitude above 2 percent. *)
Lemma shipped_detector_threshold T series cp :
  cp ∈ detect T shipped_config series →
  PrimFloat.ltb 2 (magnitude_pct (before_mean cp) (after_mean cp)) = true.
Proof. apply (detect_exceeds_regression_threshold T shipped_config). Qed.

(** A step with noise in both windows is found, at the step. *)
Example noisy_step_detected :
  map index (detect SheriffBot.example_test SheriffBot.example_config
               (SheriffBot.noisy_step 0)) = [4%nat].
Proof. by vm_compute. Qed.

(** The candidates of the step scenario before merging. The split at index
    4 has back windows all 10 and a fore window all 20: Welch's statistic is
    10 divided by a zero standard error, infinity in binary64, above any
    finite threshold. The split at index 3 has a finite statistic and is a
    candidate or not, depending on the thresholds. *)
Lemma step_scenario_candidates conf thr reg m :
  PrimFloat.ltb thr infinity = true →
  PrimFloat.ltb reg 100 = true →
  let cfg := {| min_back_window := 3; max_back_window := S (S (S m));
                fore_window := 3; regression_threshold_pct := reg |} in
  let cp4 := {| index := 4; before_mean := 10; after_mean := 20;
                before_n := 3; after_n := 3; t_statistic := infinity;
                confidence := conf [10; 10; 10]%float [20; 20; 20]%float |} in
  omap (candidate_at (welch_test conf thr) cfg step_scenario)
       (split_positions cfg 8) = [cp4]
  ∨ ∃ cp3, omap (candidate_at (welch_test conf thr) cfg step_scenario)
                (split_positions cfg 8) = [cp3; cp4]
           ∧ index cp3 = 3%nat
           ∧ PrimFloat.ltb (PrimFloat.abs (t_statistic cp3)) infinity = true.
Proof.
  intros Hthr Hreg cfg cp4.
  assert (H4 : candidate_at (welch_test conf thr) cfg step_scenario 4 = Some cp4).
  { subst cfg cp4. unfold infinity in Hthr.
    destruct m as [|m]; vm_compute; by rewrite Hthr, Hreg. }
  change (split_positions cfg 8) with [3%nat; 4%nat].
  cbn [omap list_omap]. rewrite H4.
  destruct (candidate_at (welch_test conf thr) cfg step_scenario 3) as [cp3|] eqn:H3;
    [right | by left].
  exists cp3. split; [done|]. split; [by apply candidate_at_index in H3|].
  subst cfg. vm_compute in H3.
  match type of H3 with
  | (if (if ?a then ?b else _) then _ else _) = _ =>
      destruct a; [destruct b|]; [|done..]
  end.
  injection H3 as <-. by vm_compute.
Qed.

(** C6: on the series [10,10,10,10,20,20,20,20] with min_back_window = 3 and
    fore_window = 3, the detector with Welch's test emits exactly one change
    point, at index 4, between means 10 and 20: a relative magnitude of 100%,
    and the alert made from it is a regression when lower is better. This
    holds for every finite significance threshold, every regression
    threshold below 100%, every max_back_window that leaves room for the
    smallest back window, and every confidence function. *)
Theorem step_scenario_one_change_point_at_4
    (conf : list float → list float → float) (thr : float) (cfg : Config)
    (series : SignatureSeries) :
  min_back_window cfg = 3%nat → fore_window cfg = 3%nat →
  (min_back_window cfg ≤ max_back_window cfg)%nat →
  PrimFloat.ltb thr infinity = true →
  PrimFloat.ltb (regression_threshold_pct cfg) 100 = true →
  map value series = step_scenario →
  ∃ cp, detect (welch_test conf thr) cfg series = [cp]
        ∧ index cp = 4%nat
        ∧ before_mean cp = 10%float ∧ after_mean cp = 20%float
        ∧ before_n cp = 3%nat ∧ after_n cp = 3%nat
        ∧ t_statistic cp = infinity
        ∧ magnitude_pct (before_mean cp) (after_mean cp) = 100%float
        ∧ ∀ now next_id sig plat on_allow_list p,
            Alerts.magnitude_pct
              (AlertGenerator.new_alert now next_id sig plat false on_allow_list p cp)
            = 100%float
            ∧ Alerts.is_regression
                (AlertGenerator.new_alert now next_id sig plat false on_allow_list p cp)
              = true.
Proof.
  destruct cfg as [minb maxb fw reg]. cbn. intros -> -> Hmax Hthr Hreg Hvals.
  destruct maxb as [|[|[|m]]]; [lia..|].
  eexists. split.
  - unfold detect. rewrite Hvals. change (length step_scenario) with 8%nat.
    destruct (step_scenario_candidates conf thr reg m Hthr Hreg)
      as [-> | (cp3 & -> & Hidx & Ht)].
    + reflexivity.
    + unfold merge_overlapping. cbn [fold_left merge_step index t_statistic].
      rewrite Hidx. change (PrimFloat.abs infinity) with infinity. rewrite Ht.
      reflexivity.
  - by vm_compute.
Qed.

Lemma step_scenario_one_change_point_at_4_witness :
  map value (series_of step_scenario) = step_scenario
  ∧ map (λ cp, (index cp, before_mean cp, after_mean cp))
        (detect SheriffBot.example_test SheriffBot.example_config
                (series_of step_scenario))
    = [(4%nat, 10%float, 20%float)].
Proof.
  split; [reflexivity|].
  destruct (step_scenario_one_change_point_at_4
              (λ _ _, 0%float) 7%float SheriffBot.example_config
              (series_of step_scenario) eq_refl eq_refl)
    as (cp & Hdet & Hidx & Hback & Hfore & _);
    [cbn; lia | reflexivity | reflexivity | reflexivity |].
  change (welch_test (λ _ _, 0%float) 7) with SheriffBot.example_test in Hdet.
  rewrite Hdet. cbn [map]. by rewrite Hidx, Hback, Hfore.
Defined.

(** The thresholds and the window bound of C6 are needed: a threshold of
    infinity, a regression threshold of 100%, or a max_back_window below
    min_back_window leave the scenario without a change point. *)
Example step_scenario_outside_the_thresholds :
  detect (welch_test (λ _ _, 0%float) infinity)
         SheriffBot.example_config (series_of step_scenario) = []
  ∧ detect SheriffBot.example_test
           {| min_back_window := 3; max_back_window := 6; fore_window := 3;
              regression_threshold_pct := 100 |} (series_of step_scenario) = []
  ∧ detect SheriffBot.example_test
           {| min_back_window := 3; max_back_window := 2; fore_window := 3;
              regression_threshold_pct := 2 |} (series_of step_scenario) = [].
Proof. by vm_compute. Qed.

Lemma zero_variance_replicate (k : nat) (v : float) :
  PrimFloat.eqb v v = true → zero_variance (replicate k v) = true.
Proof.
  intros Hv. destruct k as [|k]; [done|]. cbn.
  induction k as [|k IH]; [done|]. cbn. by rewrite Hv.
Qed.

(** The zero-variance rule at work: a series that is constant (at a value
    other than NaN) has no change point, whatever the test and the
    configuration. *)
Lemma constant_series_no_change_point T cfg (series : SignatureSeries)
    (n : nat) (v : float) :
  PrimFloat.eqb v v = true →
  map value series = replicate n v →
  detect T cfg series = [].
Proof.
  intros Hv Hvals. unfold detect. rewrite Hvals.
  assert (Hnone : ∀ i, candidate_at T cfg (replicate n v) i = None).
  { intros i. unfold candidate_at.
    assert (Hbest : best_back T cfg (replicate n v) i = None); [|by rewrite Hbest].
    unfold best_back. apply fold_left_fixed. intros k _.
    unfold split_statistic, degenerate, window.
    rewrite !drop_replicate, !take_replicate, <- replicate_add.
    by rewrite zero_variance_replicate. }
  assert (Homap : ∀ l, omap (candidate_at T cfg (replicate n v)) l = []).
  { intros l. induction l as [|i l IH]; [done|]. cbn. by rewrite Hnone. }
  by rewrite Homap.
Qed.

End Detector_facts.

(** * Properties of the tick *)

Section Lifecycle_facts.
Import Alerts Lifecycle.

Lemma cooldown_positive : 0 < duration_us BUG_COOLDOWN_TIME.
Proof. by vm_compute. Qed.

Lemma advance_keeps_identity now a :
  id (advance now a) = id a
  ∧ signature_id (advance now a) = signature_id a
  ∧ platform (advance now a) = platform a
  ∧ revision_order (advance now a) = revision_order a.
Proof.
  unfold advance. destruct (state a); try done.
  - by destruct (expired _ now).
  - destruct (bug_id a); [done|]. by destruct (expired _ now).
  - destruct (bug_id a); [done|]. by destruct (expired _ now).
Qed.

Lemma advance_raised now a : state a = raised → advance now a = a.
Proof. unfold advance. by intros ->. Qed.

(** The timer step settles in one application: advancing twice at the
    same instant is advancing once. *)
Lemma advance_idempotent now a : advance now (advance now a) = advance now a.
Proof.
  pose proof cooldown_positive as Hpos.
  destruct (state a) eqn:Hst.
  - by rewrite !(advance_raised now a Hst).
  - assert (Hadv : advance now a =
      if expired ((λ t, t + duration_us TIME_TO_MATURE) <$> confirmed_at a) now
      then with_matured_at now (with_state matured a) else a)
      by (unfold advance; by rewrite Hst).
    destruct (expired _ now); rewrite Hadv; [|done].
    unfold advance, expired.
    cbn [state with_matured_at with_state bug_id matured_at fmap option_fmap option_map].
    destruct (bug_id a); [done|].
    destruct (Z.leb_spec (now + duration_us BUG_COOLDOWN_TIME) now);
      [exfalso; lia | done].
  - assert (Hadv : advance now a =
      match bug_id a with
      | Some _ => a
      | None => if expired (cooldown_until a) now then with_state dismissed a else a
      end) by (unfold advance; by rewrite Hst).
    destruct (bug_id a); [by rewrite Hadv|].
    destruct (expired _ now); rewrite Hadv; [reflexivity | done].
  - assert (Hadv : advance now a =
      match bug_id a with
      | Some _ => a
      | None =>
          if expired ((λ t, t + duration_us BUG_COOLDOWN_TIME) <$> matured_at a) now
          then with_state dismissed a else a
      end) by (unfold advance; by rewrite Hst).
    destruct (bug_id a); [by rewrite Hadv|].
    destruct (expired _ now); rewrite Hadv; [reflexivity | done].
  - assert (Hadv : advance now a = a) by (unfold advance; by rewrite Hst).
    by rewrite !Hadv.
  - assert (Hadv : advance now a = a) by (unfold advance; by rewrite Hst).
    by rewrite !Hadv.
Qed.

End Lifecycle_facts.

Section AlertGenerator_facts.
Import AlertGenerator.

Variables (now : instant) (series : SignatureSeries) (fw : nat).
Variables (sig : nat) (plat : string) (hib oal : bool).

Local Abbreviation consider' := (consider now series fw sig plat hib oal).
Local Abbreviation covered' := (covered series fw sig plat).

Lemma is_duplicate_app i l1 l2 :
  is_duplicate series fw sig plat i (l1 ++ l2) =
    is_duplicate series fw sig plat i l1 || is_duplicate series fw sig plat i l2.
Proof. unfold is_duplicate. apply existsb_app. Qed.

Lemma covered_app alerts extra cp :
  covered' alerts cp = true → covered' (alerts ++ extra) cp = true.
Proof.
  unfold covered. destruct (series !! index cp); [|done].
  rewrite is_duplicate_app. intros ->. done.
Qed.

(** The data point at position [i] is within [fw] positions of [i]. *)
Lemma revisions_near_self i p :
  series !! i = Some p → revision_order p ∈ revisions_near series fw i.
Proof.
  intros Hi. unfold revisions_near. apply list_elem_of_fmap.
  exists p. split; [done|].
  apply list_elem_of_lookup. exists (i - (i - fw))%nat.
  rewrite lookup_take_lt by lia. rewrite lookup_drop.
  by replace (i - fw + (i - (i - fw)))%nat with i by lia.
Qed.

(** [consider] only appends, and what it appends is in state [raised]. *)
Lemma consider_appends alerts cp :
  ∃ extra, consider' alerts cp = alerts ++ extra
           ∧ Forall (λ a, Alerts.state a = raised) extra.
Proof.
  unfold consider. destruct (series !! index cp) as [p|].
  - destruct (is_duplicate _ _ _ _ _ _).
    + exists []. by rewrite app_nil_r.
    + eexists. split; [done|]. by repeat constructor.
  - exists []. by rewrite app_nil_r.
Qed.

Lemma consider_covered_id alerts cp :
  covered' alerts cp = true → consider' alerts cp = alerts.
Proof.
  unfold covered, consider. destruct (series !! index cp); [|done].
  by intros ->.
Qed.

(** After [consider], the candidate is a duplicate: of the alert that
    suppressed it, or of the alert just created for it. *)
Lemma consider_covers alerts cp : covered' (consider' alerts cp) cp = true.
Proof.
  unfold covered, consider.
  destruct (series !! index cp) as [p|] eqn:Hp; [|done].
  destruct (is_duplicate _ _ _ _ _ alerts) eqn:Hdup; [done|].
  rewrite is_duplicate_app. apply orb_true_iff. right.
  unfold is_duplicate, new_alert. cbn.
  rewrite !bool_decide_eq_true_2 by done. cbn.
  rewrite orb_false_r. apply existsb_exists.
  exists (revision_order p). split; [|apply Z.eqb_refl].
  apply list_elem_of_In. by apply revisions_near_self.
Qed.

Lemma consider_keeps_covered alerts cp cp' :
  covered' alerts cp = true → covered' (consider' alerts cp') cp = true.
Proof.
  intros H. destruct (consider_appends alerts cp') as [extra [-> _]].
  by apply covered_app.
Qed.

(** A revision near a position is the revision of a point of the series. *)
Lemma revisions_near_elem i r :
  r ∈ revisions_near series fw i → ∃ p, p ∈ series ∧ revision_order p = r.
Proof.
  unfold revisions_near. intros H.
  apply list_elem_of_fmap in H as (p & -> & Hp).
  exists p. split; [|done].
  by apply (subseteq_drop (i - fw)), (subseteq_take (i + fw + 1 - (i - fw))).
Qed.

(** An alert whose revision is not in the series suppresses no candidate. *)
Lemma is_duplicate_needs_revision i alerts :
  is_duplicate series fw sig plat i alerts = true →
  ∃ a p, a ∈ alerts ∧ Alerts.is_open a = true
         ∧ Alerts.signature_id a = sig ∧ Alerts.platform a = plat
         ∧ p ∈ series ∧ revision_order p = Alerts.revision_order a
         ∧ existsb (Z.eqb (Alerts.revision_order a)) (revisions_near series fw i)
           = true.
Proof.
  unfold is_duplicate. rewrite existsb_exists. intros (a & Ha & Hdup).
  apply andb_true_iff in Hdup as [Hdup Hrev].
  apply andb_true_iff in Hdup as [Hdup Hplat].
  apply andb_true_iff in Hdup as [Hop Hsig].
  apply bool_decide_eq_true in Hsig, Hplat.
  pose proof Hrev as Hrev'.
  apply existsb_exists in Hrev' as (r & Hr & Heq). apply Z.eqb_eq in Heq.
  apply list_elem_of_In, revisions_near_elem in Hr as (p & Hp & Hpr).
  exists a, p. repeat split; try done; [by apply list_elem_of_In | congruence].
Qed.

End AlertGenerator_facts.

Section Recent_facts.
Import AlertGenerator.

Lemma max_age_us : duration_us PERFHERDER_ALERTS_MAX_AGE = 1209600000000.
Proof. by vm_compute. Qed.

Lemma cooldown_us : duration_us BUG_COOLDOWN_TIME = 1209600000000.
Proof. by vm_compute. Qed.

(** The recent data are the points not older than two weeks, the boundary
    excluded. *)
Lemma recent_elem (now : instant) (series : SignatureSeries) (p : DataPoint) :
  p ∈ recent now series ↔
    p ∈ series ∧ now - timestamp p < 2 * (7 * 24 * 3600 * 1000000).
Proof.
  unfold recent. rewrite list_elem_of_filter. unfold within_alerts_max_age.
  rewrite max_age_us, Z.ltb_lt. split; intros [? ?]; split; (done || lia).
Qed.

Lemma recent_all_old (now : instant) (series : SignatureSeries) :
  (∀ p, p ∈ series → 2 * (7 * 24 * 3600 * 1000000) < now - timestamp p) →
  recent now series = [].
Proof.
  intros Hold. destruct (recent now series) as [|p l] eqn:Hr; [done|].
  assert (Hp : p ∈ recent now series) by (rewrite Hr; by left).
  apply recent_elem in Hp as [Hp Hage]. apply Hold in Hp. lia.
Qed.

(** Two series with the same points younger than two weeks have the same
    recent data. *)
Lemma recent_as_filter (now : instant) (series series' : SignatureSeries) :
  filter (λ p, now - timestamp p < 2 * (7 * 24 * 3600 * 1000000)) series'
  = filter (λ p, now - timestamp p < 2 * (7 * 24 * 3600 * 1000000)) series →
  recent now series' = recent now series.
Proof.
  assert (H : ∀ l, recent now l
    = filter (λ p, now - timestamp p < 2 * (7 * 24 * 3600 * 1000000)) l).
  { intros l. unfold recent. apply list_filter_iff. intros p.
    unfold within_alerts_max_age. rewrite max_age_us, Z.ltb_lt. lia. }
  intros Heq. by rewrite !H.
Qed.

End Recent_facts.

Section Issue_facts.
Import Backfill.

Lemma has_retried_app a l extra :
  has_retried a l = true → has_retried a (l ++ extra) = true.
Proof.
  induction l as [|q l IH]; cbn; intros H; [done|].
  apply orb_true_iff in H as [H|H].
  - apply andb_true_iff in H as [H1 H2].
    by rewrite H1, existsb_app, H2.
  - rewrite IH by done. apply orb_true_r.
Qed.

(** More requests never make a pair admissible again. *)
Lemma may_issue_app_false reqs extra a rev :
  may_issue reqs a rev = false → may_issue (reqs ++ extra) a rev = false.
Proof.
  unfold may_issue. rewrite !existsb_app.
  destruct (existsb (open_for a rev) reqs); [done|]. cbn.
  destruct (existsb (failed_for a rev) reqs); cbn; [|done].
  destruct (has_retried a reqs) eqn:Hr; [|done].
  intros _. rewrite (has_retried_app _ _ extra Hr). apply andb_false_r.
Qed.

Lemma has_capacity_after_issue b p p' :
  has_capacity b p = false →
  has_capacity (<[p' := used b p' + 1]> b) p = false.
Proof.
  unfold has_capacity. destruct (MAX_BACKFILLS_PER_PLATFORM !! p); [|done].
  rewrite used_insert. destruct (decide (p' = p)) as [->|_]; [|done].
  rewrite !Z.ltb_ge. lia.
Qed.

Lemma issue_for_blocked now s pr : issues s pr = false → issue_for now s pr = s.
Proof.
  unfold issues, issue_for, issue.
  destruct (may_issue _ _ _); [|done]. cbn. by intros ->.
Qed.

(** Once a request was issued for a pair, its open request blocks the pair. *)
Lemma issues_own now s pr : issues (issue_for now s pr) pr = false.
Proof.
  destruct (issues s pr) eqn:Hi; [|by rewrite issue_for_blocked].
  unfold issues in Hi. apply andb_true_iff in Hi as [Hm Hc].
  unfold issue_for, issue. rewrite Hm, Hc.
  unfold issues, may_issue. cbn [requests budget].
  rewrite existsb_app. cbn.
  unfold open_for at 2, for_pair. cbn.
  rewrite !bool_decide_eq_true_2 by done. cbn.
  by rewrite orb_true_r.
Qed.

Lemma issues_keep now s pr pr' :
  issues s pr = false → issues (issue_for now s pr') pr = false.
Proof.
  intros H. unfold issue_for, issue.
  destruct (may_issue _ _ _); [|done].
  destruct (has_capacity _ _); [|done].
  unfold issues in *. cbn [requests budget].
  apply andb_false_iff in H as [H|H].
  - by rewrite may_issue_app_false.
  - rewrite has_capacity_after_issue by done. apply andb_false_r.
Qed.

(** Issuing for the same pairs a second time changes nothing. *)
Lemma issue_pass_idempotent now pairs s :
  fold_left (issue_for now) pairs (fold_left (issue_for now) pairs s)
  = fold_left (issue_for now) pairs s.
Proof.
  apply fold_left_fixed. intros pr Hpr. apply issue_for_blocked.
  apply (fold_left_establishes (issue_for now) (λ s pr, issues s pr = false));
    [apply issues_own | intros; by apply issues_keep | done].
Qed.

(** What one call of [issue_for] adds: nothing, or one open request that
    passed the checks, with one unit of its platform's budget. *)
Lemma issue_for_adds now s pr :
  ∃ issued,
    requests (issue_for now s pr) = requests s ++ issued
    ∧ issued_in_order now (requests s) issued
    ∧ (∀ p, used (budget (issue_for now s pr)) p
            = used (budget s) p + count_in_flight p issued).
Proof.
  unfold issue_for, issue.
  destruct (may_issue _ _ _) eqn:Hm; [destruct (has_capacity _ _) eqn:Hc|].
  - eexists [_]. cbn [requests budget]. split; [done|]. split.
    + by apply each_after_singleton.
    + intros p. rewrite used_insert, count_in_flight_cons.
      unfold is_in_flight. cbn [platform completed_at].
      change (count_in_flight p []) with 0.
      destruct (decide (Alerts.platform pr.1 = p)) as [->|Hne].
      * rewrite !bool_decide_eq_true_2 by done. cbn. lia.
      * rewrite bool_decide_eq_false_2 by done. cbn. lia.
  - exists []. rewrite app_nil_r. split; [done|].
    split; [apply each_after_nil | intros p].
    change (count_in_flight p []) with 0. lia.
  - exists []. rewrite app_nil_r. split; [done|].
    split; [apply each_after_nil | intros p].
    change (count_in_flight p []) with 0. lia.
Qed.

Lemma issue_pass_adds now pairs s :
  ∃ issued,
    requests (fold_left (issue_for now) pairs s) = requests s ++ issued
    ∧ issued_in_order now (requests s) issued
    ∧ (∀ p, used (budget (fold_left (issue_for now) pairs s)) p
            = used (budget s) p + count_in_flight p issued).
Proof.
  apply (fold_left_preserves (issue_for now)
    (λ st, ∃ issued,
       requests st = requests s ++ issued
       ∧ issued_in_order now (requests s) issued
       ∧ (∀ p, used (budget st) p = used (budget s) p + count_in_flight p issued))).
  - intros st pr (issued & Hreq & Hord & Hbud).
    destruct (issue_for_adds now st pr) as (more & Hreq' & Hord' & Hbud').
    exists (issued ++ more). split; [by rewrite Hreq', Hreq, app_assoc|]. split.
    + apply each_after_app; [done|]. by rewrite <- Hreq.
    + intros p. rewrite Hbud', Hbud, count_in_flight_app. lia.
  - exists []. rewrite app_nil_r. split; [done|].
    split; [apply each_after_nil | intros p].
    change (count_in_flight p []) with 0. lia.
Qed.

(** The [completed_at] check: a request that passed [may_issue] has no open
    request for its pair among the requests before it. *)
Lemma may_issue_no_open reqs a rev q0 :
  may_issue reqs a rev = true → q0 ∈ reqs → open_for a rev q0 = false.
Proof.
  unfold may_issue. intros Hm Hq0. apply andb_true_iff in Hm as [Hm _].
  apply negb_true_iff in Hm.
  destruct (open_for a rev q0) eqn:Ho; [|done].
  assert (existsb (open_for a rev) reqs = true); [|congruence].
  apply existsb_exists. exists q0. split; [by apply list_elem_of_In | done].
Qed.

End Issue_facts.

Section SheriffBot_facts.
Import SheriffBot.

Variable detect : SignatureSeries → list ChangePoint.
Variable fore_window : nat.
Variable missing_revisions : SignatureSeries → Z → list Z.
Variables (now : instant) (env : Environment).

Local Abbreviation generate' := (generate detect fore_window now env).
Local Abbreviation tick' := (tick detect fore_window missing_revisions now env).
Local Abbreviation recent' :=
  (λ sp : nat * string, AlertGenerator.recent now (get_series env sp.1 sp.2)).

(** All candidates of a signature are duplicates in [alerts]. *)
Local Abbreviation all_covered := (λ (alerts : list Alert) (sp : nat * string),
  ∀ cp, cp ∈ detect (recent' sp) →
        AlertGenerator.covered (recent' sp) fore_window sp.1 sp.2 alerts cp = true).

(** [l] is [alerts] followed by alerts created by the deduplication rule. *)
Local Abbreviation grown := (λ (alerts l : list Alert),
  ∃ created, l = alerts ++ created
             ∧ created_in_order detect fore_window now env alerts created
             ∧ Forall (λ a, Alerts.state a = raised) created).

Lemma grown_refl alerts : grown alerts alerts.
Proof.
  exists []. rewrite app_nil_r. split; [done|]. split; [apply each_after_nil|done].
Qed.

Lemma grown_trans alerts l l' : grown alerts l → grown l l' → grown alerts l'.
Proof.
  intros (c1 & -> & Ho1 & Hr1) (c2 & -> & Ho2 & Hr2).
  exists (c1 ++ c2). split; [by rewrite app_assoc|].
  split; [by apply each_after_app | by apply Forall_app].
Qed.

Lemma consider_grows sp alerts cp :
  sp ∈ new_data env → cp ∈ detect (recent' sp) →
  grown alerts
    (AlertGenerator.consider now (recent' sp) fore_window sp.1 sp.2
       (higher_is_better env sp.1) (on_allow_list env sp.1) alerts cp).
Proof.
  intros Hsp Hcp. unfold AlertGenerator.consider.
  destruct (recent' sp !! index cp) as [p|] eqn:Hp; [|apply grown_refl].
  destruct (AlertGenerator.is_duplicate _ _ _ _ _ alerts) eqn:Hdup;
    [apply grown_refl|].
  eexists [_]. split; [done|]. split; [|by repeat constructor].
  apply each_after_singleton. by exists sp, cp, p.
Qed.

Lemma generate_grows alerts sp :
  sp ∈ new_data env → grown alerts (generate' alerts sp).
Proof.
  intros Hsp. unfold generate.
  apply (fold_left_preserves_elem _ (grown alerts)); [|apply grown_refl].
  intros l cp Hcp Hl. apply (grown_trans _ l); [done|]. by apply consider_grows.
Qed.

(** Step 2 only appends, and what it appends are alerts in state [raised]
    that the deduplication rule let through. *)
Lemma generate_pass_grows alerts :
  grown alerts (fold_left generate' (new_data env) alerts).
Proof.
  apply (fold_left_preserves_elem _ (grown alerts)); [|apply grown_refl].
  intros l sp Hsp Hl. apply (grown_trans _ l); [done|]. by apply generate_grows.
Qed.

Lemma generate_appends alerts sp :
  ∃ extra, generate' alerts sp = alerts ++ extra
           ∧ Forall (λ a, Alerts.state a = raised) extra.
Proof.
  unfold generate.
  apply (fold_left_preserves _
    (λ l, ∃ extra, l = alerts ++ extra
                   ∧ Forall (λ a, Alerts.state a = raised) extra)).
  - intros l cp (extra & -> & Hextra).
    destruct (consider_appends now (recent' sp) fore_window sp.1 sp.2
                (higher_is_better env sp.1) (on_allow_list env sp.1)
                (alerts ++ extra) cp) as (more & -> & Hmore).
    exists (extra ++ more). split; [by rewrite app_assoc|].
    by apply Forall_app.
  - exists []. by rewrite app_nil_r.
Qed.

Lemma generate_covers alerts sp : all_covered (generate' alerts sp) sp.
Proof.
  intros cp Hcp. unfold generate.
  apply (fold_left_establishes _
    (λ l cp, AlertGenerator.covered (recent' sp) fore_window
               sp.1 sp.2 l cp = true)); [| |done].
  - intros l c. apply consider_covers.
  - intros l c c' H. by apply consider_keeps_covered.
Qed.

Lemma generate_keeps alerts sp sp' :
  all_covered alerts sp → all_covered (generate' alerts sp') sp.
Proof.
  intros H cp Hcp. destruct (generate_appends alerts sp') as (extra & -> & _).
  apply covered_app. by apply H.
Qed.

Lemma generate_fixed alerts sp :
  all_covered alerts sp → generate' alerts sp = alerts.
Proof.
  intros H. unfold generate. apply fold_left_fixed.
  intros cp Hcp. apply consider_covered_id. by apply H.
Qed.

(** The alerts the timer step closes at [now] suppress no candidate: the
    data point of their revision is no longer among the recent data. *)
Local Abbreviation closes_only_aged := (λ alerts : list Alert,
  ∀ a, a ∈ alerts → Alerts.is_open a = true →
       Alerts.is_open (Lifecycle.advance now a) = false →
       ∀ p, p ∈ AlertGenerator.recent now
                  (get_series env (Alerts.signature_id a) (Alerts.platform a)) →
            revision_order p ≠ Alerts.revision_order a).

(** The timer step keeps a candidate suppressed as long as it closes no
    alert that suppresses one. *)
Lemma covered_advance sp alerts cp :
  closes_only_aged alerts →
  AlertGenerator.covered (recent' sp) fore_window sp.1 sp.2 alerts cp = true →
  AlertGenerator.covered (recent' sp) fore_window sp.1 sp.2
    (map (Lifecycle.advance now) alerts) cp = true.
Proof.
  intros Hclose. unfold AlertGenerator.covered.
  destruct (recent' sp !! index cp); [|done]. intros Hdup.
  destruct (is_duplicate_needs_revision _ _ _ _ _ _ Hdup)
    as (a & p & Ha & Hop & Hsig & Hplat & Hp & Hrev & Hnear).
  unfold AlertGenerator.is_duplicate. rewrite existsb_exists.
  exists (Lifecycle.advance now a). split; [by apply in_map, list_elem_of_In|].
  destruct (advance_keeps_identity now a) as (_ & -> & -> & ->).
  rewrite Hnear, !bool_decide_eq_true_2 by done.
  destruct (Alerts.is_open (Lifecycle.advance now a)) eqn:Hadv; [done|].
  exfalso. apply (Hclose a Ha Hop Hadv p); [|done]. by rewrite Hsig, Hplat.
Qed.

Lemma closes_only_aged_app alerts extra :
  closes_only_aged alerts → Forall (λ a, Alerts.state a = raised) extra →
  closes_only_aged (alerts ++ extra).
Proof.
  intros Hclose Hr a Ha Hop Hadv. apply elem_of_app in Ha as [Ha|Ha].
  - by apply Hclose.
  - rewrite Forall_forall in Hr. rewrite advance_raised in Hadv by (by apply Hr).
    congruence.
Qed.

(** An alert that the timer step has visited is not closed by it again. *)
Lemma closes_only_aged_advanced alerts :
  closes_only_aged (map (Lifecycle.advance now) alerts).
Proof.
  intros a Ha Hop Hadv. apply list_elem_of_fmap in Ha as (a0 & -> & _).
  rewrite advance_idempotent in Hadv. congruence.
Qed.

(** The alerts after a tick: those of the state after the timer step, then
    the alerts created, which are in state [raised]. *)
Lemma tick_alerts (s : State) :
  ∃ created,
    alerts (tick' s) = map (Lifecycle.advance now) (alerts s) ++ created
    ∧ created_in_order detect fore_window now env (alerts s) created
    ∧ Forall (λ a, Alerts.state a = raised) created.
Proof.
  unfold tick. cbn [alerts].
  destruct (generate_pass_grows (alerts s)) as (created & -> & Hord & Hr).
  exists created. split; [|done]. rewrite map_app. f_equal.
  rewrite <- (map_id created) at 2. apply map_ext_in. intros a Ha.
  apply advance_raised. rewrite Forall_forall in Hr. by apply Hr, list_elem_of_In.
Qed.

Lemma tick_requests (s : State) :
  ∃ issued,
    Backfill.requests (scheduler (tick' s))
    = Backfill.requests (scheduler s) ++ issued
    ∧ Backfill.issued_in_order now (Backfill.requests (scheduler s)) issued
    ∧ (∀ p, Backfill.used (Backfill.budget (scheduler (tick' s))) p
            = Backfill.used (Backfill.budget (scheduler s)) p
              + Backfill.count_in_flight p issued).
Proof. unfold tick. cbn [scheduler]. apply issue_pass_adds. Qed.

(** Running the tick a second time gives the state of running it once,
    provided the timer step of the first run closes no alert whose revision
    is still among the recent data. *)
Lemma tick_fixed_when_closed_alerts_aged (s : State) :
  closes_only_aged (alerts s) → tick' (tick' s) = tick' s.
Proof.
  intros Hclose. unfold tick. cbn [alerts scheduler].
  set (alerts1 := fold_left generate' (new_data env) (alerts s)).
  set (alerts2 := map (Lifecycle.advance now) alerts1).
  assert (Hclose1 : closes_only_aged alerts1).
  { destruct (generate_pass_grows (alerts s)) as (extra & He & _ & Hr).
    fold alerts1 in He. rewrite He. by apply closes_only_aged_app. }
  assert (Hcov : ∀ sp, sp ∈ new_data env → all_covered alerts2 sp).
  { intros sp Hsp cp Hcp. apply covered_advance; [done|].
    revert cp Hcp.
    apply (fold_left_establishes generate' all_covered);
      [apply generate_covers | intros; by apply generate_keeps | done]. }
  assert (Hgen : fold_left generate' (new_data env) alerts2 = alerts2).
  { apply fold_left_fixed. intros sp Hsp. apply generate_fixed. by apply Hcov. }
  rewrite Hgen.
  assert (Hadv : map (Lifecycle.advance now) alerts2 = alerts2).
  { unfold alerts2. rewrite map_map. apply map_ext.
    intros a. apply advance_idempotent. }
  rewrite Hadv. f_equal. apply issue_pass_idempotent.
Qed.

(** After one run the timer step has nothing left to close: a further run
    changes the state only by what step 2 creates and step 4 issues. *)
Lemma tick_closes_only_aged (s : State) : closes_only_aged (alerts (tick' s)).
Proof. unfold tick. cbn [alerts]. apply closes_only_aged_advanced. Qed.

Lemma tick_alerts_advanced (s : State) :
  map (Lifecycle.advance now) (alerts (tick' s)) = alerts (tick' s).
Proof.
  unfold tick. cbn [alerts]. rewrite map_map. apply map_ext.
  intros a. apply advance_idempotent.
Qed.

(** An alert dated consistently with the data is closed by the timer step
    only when the data point of its revision is older than the cooldown,
    which is as long as the maximum age of the data. *)
Lemma well_dated_closes_only_aged (als : list Alert) :
  Forall (well_dated env) als → closes_only_aged als.
Proof.
  rewrite Forall_forall. intros Hwd a Ha Hop Hadv p Hp Hrev.
  destruct (Hwd a Ha) as (Hdata & Hmat & Hcool).
  apply recent_elem in Hp as [Hp Hage]. specialize (Hdata p Hp Hrev).
  rewrite cooldown_us in Hcool.
  unfold Lifecycle.advance in Hadv.
  destruct (Alerts.state a) eqn:Hst; try congruence.
  - destruct (Lifecycle.expired _ now); [discriminate Hadv | congruence].
  - destruct (Alerts.bug_id a); [congruence|].
    destruct (Alerts.cooldown_until a) as [t|] eqn:Hc; [|cbn in Hadv; congruence].
    cbn [Lifecycle.expired] in Hadv.
    destruct (Z.leb_spec t now); [|congruence].
    specialize (Hcool t eq_refl). lia.
  - destruct (Alerts.bug_id a); [congruence|].
    destruct (Alerts.matured_at a) as [t|] eqn:Hm; [|cbn in Hadv; congruence].
    cbn [Lifecycle.expired fmap option_fmap option_map] in Hadv.
    rewrite cooldown_us in Hadv.
    destruct (Z.leb_spec (t + 1209600000000) now); [|congruence].
    specialize (Hmat t eq_refl). lia.
Qed.


End SheriffBot_facts.

Section Max_age_facts.
Import SheriffBot.


End Max_age_facts.

Section SheriffBot_examples.
Import SheriffBot.


(** The two runs behind the counterexample, and a third. *)
Example stale_alert_dismissed_then_recreated :
  let once := example_tick cooldown_expiry (example_env (6 * hour)) stale_state in
  let twice := example_tick cooldown_expiry (example_env (6 * hour)) once in
  map Alerts.state (alerts once) = [dismissed]
  ∧ Backfill.requests (scheduler once) = []
  ∧ map Alerts.state (alerts twice) = [dismissed; raised]
  ∧ map Alerts.revision_order (alerts twice) = [6; 6]
  ∧ map Backfill.alert_id (Backfill.requests (scheduler twice)) = [1%nat; 1%nat]
  ∧ map Backfill.revision_order (Backfill.requests (scheduler twice)) = [4; 5]
  ∧ Backfill.used (Backfill.budget (scheduler twice)) "linux" = 2
  ∧ example_tick cooldown_expiry (example_env (6 * hour)) twice = twice.
Proof. by vm_compute. Qed.

(** When the data of the step is as old as the alert, it is older than the
    maximum age by the time the cooldown runs out: the first run dismisses
    the alert, and the second changes nothing. *)
Example stale_alert_dismissed_for_good :
  let once := example_tick cooldown_expiry (example_env 0) stale_state in
  Forall (well_dated (example_env 0)) (alerts stale_state)
  ∧ map Alerts.state (alerts once) = [dismissed]
  ∧ example_tick cooldown_expiry (example_env 0) once = once.
Proof.
  split; [|by vm_compute].
  repeat constructor; cbn.
  - intros p Hp Hrev.
    repeat (apply elem_of_cons in Hp as [->|Hp]; [by vm_compute|]).
    by apply elem_of_nil in Hp.
  - intros t [= <-]. by vm_compute.
  - by intros t [=].
Qed.

(** From the empty state a tick raises one alert for the step and asks for
    the two missing revisions. *)
Example first_tick_from_empty :
  let once := example_tick week (example_env 0) empty_state in
  map Alerts.state (alerts once) = [raised]
  ∧ map Backfill.revision_order (Backfill.requests (scheduler once)) = [4; 5]
  ∧ example_tick week (example_env 0) once = once.
Proof. by vm_compute. Qed.



End SheriffBot_examples.


(** * Properties of the rest of the settings module *)

Section Timedelta_facts.
Import Timedelta.

Lemma new_Some_inv d s us ms m h w t :
  new d s us ms m h w = Some t →
  0 <= seconds t < 86400
  ∧ 0 <= microseconds t < 1000000
  ∧ Z.abs (days t) <= 999999999
  ∧ total_microseconds t = requested_microseconds d s us ms m h w.
Proof.
  unfold new, divmod, total_microseconds, requested_microseconds.
  change (24 * 3600) with 86400.
  destruct (999999999 <? _) eqn:Hover; [done|].
  intros [= <-]. cbn [days seconds microseconds].
  apply Z.ltb_ge in Hover.
  split; [apply Z.mod_pos_bound; lia|].
  split; [apply Z.mod_pos_bound; lia|].
  split; [exact Hover|].
  Z.to_euclidean_division_equations. lia.
Qed.

(** Normalised triples are determined by the duration they stand for. *)
Lemma normal_form_unique t1 t2 :
  0 <= seconds t1 < 86400 → 0 <= microseconds t1 < 1000000 →
  0 <= seconds t2 < 86400 → 0 <= microseconds t2 < 1000000 →
  total_microseconds t1 = total_microseconds t2 → t1 = t2.
Proof.
  destruct t1 as [d1 s1 u1], t2 as [d2 s2 u2].
  unfold total_microseconds. cbn. intros ? ? ? ? H.
  assert (u1 = u2) by lia. assert (s1 = s2) by lia. assert (d1 = d2) by lia.
  congruence.
Qed.

(** X1: whatever integers the constructor is given, a timedelta it returns
    is normalised, within the day limit, and stands for exactly the requested
    duration. *)
Theorem timedelta_normalised_and_exact (d s us ms m h w : Z) (t : timedelta) :
  new d s us ms m h w = Some t →
  0 <= seconds t < 86400
  ∧ 0 <= microseconds t < 1000000
  ∧ Z.abs (days t) <= 999999999
  ∧ total_microseconds t = requested_microseconds d s us ms m h w.
Proof. apply new_Some_inv. Qed.

Lemma timedelta_normalised_and_exact_witness :
  new 0 (-1) 500 2 90 25 1 = Some (mk 8 8999 2500)
  ∧ total_microseconds (mk 8 8999 2500) = requested_microseconds 0 (-1) 500 2 90 25 1.
Proof.
  split; [reflexivity|].
  apply (timedelta_normalised_and_exact 0 (-1) 500 2 90 25 1 (mk 8 8999 2500) eq_refl).
Defined.

(** X2: two timedeltas are equal exactly when they were asked for the same
    duration, in whatever units. *)
Theorem timedelta_equal_iff_same_duration
    (d s us ms m h w d' s' us' ms' m' h' w' : Z) (t t' : timedelta) :
  new d s us ms m h w = Some t →
  new d' s' us' ms' m' h' w' = Some t' →
  t = t' ↔ requested_microseconds d s us ms m h w
           = requested_microseconds d' s' us' ms' m' h' w'.
Proof.
  intros H H'.
  apply new_Some_inv in H as (Hs & Hu & _ & Ht).
  apply new_Some_inv in H' as (Hs' & Hu' & _ & Ht').
  rewrite <- Ht, <- Ht'. split; [by intros ->|].
  by apply normal_form_unique.
Qed.

Lemma timedelta_equal_iff_same_duration_witness :
  new 0 0 0 0 0 0 2 = Some (mk 14 0 0)
  ∧ new 0 0 0 0 0 336 0 = Some (mk 14 0 0)
  ∧ (mk 14 0 0 = mk 14 0 0
     ↔ requested_microseconds 0 0 0 0 0 0 2 = requested_microseconds 0 0 0 0 0 336 0).
Proof.
  split; [reflexivity|]. split; [reflexivity|].
  apply (timedelta_equal_iff_same_duration 0 0 0 0 0 0 2 0 0 0 0 0 336 0
           (mk 14 0 0) (mk 14 0 0) eq_refl eq_refl).
Defined.

(** X3: the constructor raises [OverflowError] exactly when the requested
    duration, rounded down to whole days, is beyond 999999999 days in either
    direction. *)
Theorem timedelta_overflow_iff (d s us ms m h w : Z) :
  new d s us ms m h w = None ↔
  999999999 < Z.abs (requested_microseconds d s us ms m h w / 86400000000).
Proof.
  unfold new, divmod, requested_microseconds.
  change (24 * 3600) with 86400.
  match goal with |- context [999999999 <? Z.abs ?x] => set (D := x) end.
  assert (HD : D = ((((w * 7 + d) * 24 + h) * 60 + m) * 60000000
                    + s * 1000000 + ms * 1000 + us) / 86400000000).
  { subst D. Z.to_euclidean_division_equations. lia. }
  rewrite <- HD.
  destruct (999999999 <? Z.abs D) eqn:Hover.
  - apply Z.ltb_lt in Hover. done.
  - apply Z.ltb_ge in Hover. split; [done | lia].
Qed.

End Timedelta_facts.

Section Apps_and_middleware_facts.

(** Decidable statements about the two lists are settled by evaluation. *)
Local Ltac by_evaluation :=
  first [ apply (bool_decide_unpack _); by vm_compute
        | let H := fresh in
          intros H; apply (bool_decide_pack _) in H; by vm_compute in H ].

(** X4: the debug toolbar is installed as an app exactly when its middleware
    is installed, which is exactly under [DEBUG]; neither list names an entry
    twice. *)
Theorem debug_toolbar_app_iff_middleware (DEBUG : bool) :
  ("debug_toolbar"%string ∈ INSTALLED_APPS DEBUG ↔ DEBUG = true)
  ∧ ("debug_toolbar.middleware.DebugToolbarMiddleware"%string ∈ MIDDLEWARE DEBUG
     ↔ DEBUG = true)
  ∧ NoDup (INSTALLED_APPS DEBUG)
  ∧ NoDup (MIDDLEWARE DEBUG).
Proof.
  destruct DEBUG; repeat split; try done; try discriminate; by_evaluation.
Qed.


End Apps_and_middleware_facts.

Section Databases_facts.
Context {V : Type} (int : Z → V).
Variables (default_db : gmap string V) (UPSTREAM_DATABASE_URL : option string).
Variable db_url_config : string → gmap string V.

(** X6: after the loop every configured database has CONN_MAX_AGE 300,
    whatever its URL asked for, and all its other settings are the parsed
    ones. *)
Theorem every_database_persists_connections (alias : string) (db : gmap string V) :
  DATABASES int default_db UPSTREAM_DATABASE_URL db_url_config !! alias = Some db →
  db !! "CONN_MAX_AGE"%string = Some (int 300)
  ∧ ∃ from_url,
      DATABASES_before_loop default_db UPSTREAM_DATABASE_URL db_url_config !! alias
        = Some from_url
      ∧ ∀ key : string, key ≠ "CONN_MAX_AGE"%string → db !! key = from_url !! key.
Proof.
  unfold DATABASES. rewrite lookup_fmap.
  destruct (DATABASES_before_loop _ _ _ !! alias) as [from_url|] eqn:Hp; [|done].
  cbn. intros [= <-]. split; [apply lookup_insert_eq|].
  exists from_url. split; [done|].
  intros key Hkey. by rewrite lookup_insert_ne.
Qed.

(** X7: the configured databases are "default", always, and "upstream",
    exactly when UPSTREAM_DATABASE_URL is a non-empty string; there is no
    other alias. *)
Theorem database_aliases :
  DATABASES int default_db UPSTREAM_DATABASE_URL db_url_config !! "default"%string
    = Some (<["CONN_MAX_AGE"%string := int 300]> default_db)
  ∧ DATABASES int default_db UPSTREAM_DATABASE_URL db_url_config !! "upstream"%string
    = (if opt_str_truthy UPSTREAM_DATABASE_URL
       then (λ url, <["CONN_MAX_AGE"%string := int 300]> (db_url_config url))
              <$> UPSTREAM_DATABASE_URL
       else None)
  ∧ ∀ alias : string,
      alias ≠ "default"%string → alias ≠ "upstream"%string →
      DATABASES int default_db UPSTREAM_DATABASE_URL db_url_config !! alias = None.
Proof.
  unfold DATABASES, DATABASES_before_loop, opt_str_truthy.
  destruct UPSTREAM_DATABASE_URL as [url|]; [destruct (str_truthy url)|];
    repeat split; intros; rewrite lookup_fmap;
    repeat (rewrite lookup_insert_ne by done);
    rewrite ?lookup_insert_eq, ?lookup_empty; done.
Qed.

End Databases_facts.

Lemma every_database_persists_connections_witness :
  DATABASES PInt (<["CONN_MAX_AGE"%string := PInt 0]> ∅) None (λ _, ∅)
    !! "default"%string
  = Some (<["CONN_MAX_AGE"%string := PInt 300]>
            (<["CONN_MAX_AGE"%string := PInt 0]> ∅))
  ∧ (<["CONN_MAX_AGE"%string := PInt 300]>
       (<["CONN_MAX_AGE"%string := PInt 0]> (∅ : gmap string pyval)))
      !! "CONN_MAX_AGE"%string = Some (PInt 300).
Proof.
  assert (H : DATABASES PInt (<["CONN_MAX_AGE"%string := PInt 0]> ∅) None (λ _, ∅)
                !! "default"%string
              = Some (<["CONN_MAX_AGE"%string := PInt 300]>
                        (<["CONN_MAX_AGE"%string := PInt 0]> ∅))).
  { unfold DATABASES, DATABASES_before_loop.
    by rewrite lookup_fmap, lookup_insert_eq. }
  split; [exact H|].
  exact (proj1 (every_database_persists_connections PInt _ _ _ _ _ H)).
Defined.

Section String_facts.

Lemma app_String (c : ascii) (p r : string) :
  String c p +:+ r = String c (p +:+ r).
Proof. reflexivity. Qed.

Lemma prefix_spec (p s : string) :
  String.prefix p s = true ↔ ∃ rest, s = p +:+ rest.
Proof.
  revert s. induction p as [|a p IH]; intros s.
  - split; [intros _; by exists s | intros _; by destruct s].
  - destruct s as [|b s]; cbn.
    + split; [done | by intros [? ?]].
    + setoid_rewrite app_String.
      destruct (Ascii.ascii_dec a b) as [->|Hne].
      * rewrite IH. split; intros [rest Hr]; exists rest; congruence.
      * split; [done | intros [rest Hr]; congruence].
Qed.

End String_facts.

Section Https_facts.

Example int_total_seconds_truncates :
  int_total_seconds (Timedelta.new 0 1 999999 0 0 0 0) = Some 1
  ∧ int_total_seconds (Timedelta.new 0 (-1) (-999999) 0 0 0 0) = Some (-1)
  ∧ int_total_seconds (Timedelta.of_days 365) = Some 31536000.
Proof. by vm_compute. Qed.

(** Near the largest durations a float has no room for microseconds: the
    quotient rounds to the next whole second before [int] truncates it. *)
Example int_total_seconds_rounds_large_durations :
  int_total_seconds (Timedelta.new 999999999 86398 999999 0 0 0 0)
  = Some (999999999 * 86400 + 86399).
Proof. by vm_compute. Qed.

Lemma round_half_even_div_exact (q d : Z) : 0 < d → round_half_even_div (q * d) d = q.
Proof.
  intros Hd. unfold round_half_even_div.
  rewrite Z.mod_mul, Z.div_mul by lia.
  destruct (Z.ltb_spec (2 * 0) d); [done | lia].
Qed.

Lemma true_divide_exact (s b : Z) :
  0 < s < 2 ^ 53 → 0 < b →
  ∃ k, 0 <= k ∧ true_divide (s * b) b = (s * 2 ^ k, - k).
Proof.
  intros Hs Hb. unfold true_divide.
  set (e0 := Z.log2 (s * b) - Z.log2 b - 52).
  assert (He0 : e0 <= 1).
  { pose proof (Z.log2_mul_above s b ltac:(lia) ltac:(lia)).
    assert (Z.log2 s < 53) by (apply Z.log2_lt_pow2; lia). lia. }
  assert (Hexact : ∀ e, e <= 0 →
            (let '(n, d) := scaled_div (s * b) b e in (round_half_even_div n d, e))
            = (s * 2 ^ (- e), - - e)).
  { intros e He. unfold scaled_div. destruct (Z.leb_spec 0 e).
    - assert (e = 0) as -> by lia. cbn [Z.pow Z.opp]. rewrite !Z.mul_1_r.
      by rewrite round_half_even_div_exact.
    - replace (s * b * 2 ^ (- e)) with (s * 2 ^ (- e) * b) by lia.
      rewrite round_half_even_div_exact by lia. by rewrite Z.opp_involutive. }
  destruct (Z.eq_dec e0 1) as [H1|H1].
  - rewrite H1. change (scaled_div (s * b) b 1) with (s * b, b * 2).
    cbv iota beta.
    replace (s * b / (b * 2)) with (s / 2).
    2:{ rewrite <- Z.div_div by lia. by rewrite Z.div_mul by lia. }
    assert (s / 2 < 2 ^ 52) by (apply Z.div_lt_upper_bound; lia).
    destruct (Z.ltb_spec (s / 2) (2 ^ 52)); [|lia].
    exists 0. split; [lia|]. apply (Hexact (1 - 1)). lia.
  - destruct (scaled_div (s * b) b e0) as [n0 d0].
    destruct (n0 / d0 <? 2 ^ 52).
    + exists (- (e0 - 1)). split; [lia|]. rewrite Hexact by lia. done.
    + exists (- e0). split; [lia|]. rewrite Hexact by lia. done.
Qed.

Lemma int_true_divide_exact (s b : Z) :
  Z.abs s < 2 ^ 53 → 0 < b → int_true_divide (s * b) b = s.
Proof.
  intros Hs Hb. unfold int_true_divide.
  destruct (Z.eqb_spec (s * b) 0) as [H0|H0]; [nia|].
  assert (Hs0 : s <> 0) by (intros ->; lia).
  rewrite Z.abs_mul, (Z.abs_eq b) by lia.
  destruct (true_divide_exact (Z.abs s) b ltac:(lia) Hb) as (k & Hk & ->).
  rewrite Z.sgn_mul, (Z.sgn_pos b), Z.mul_1_r by lia.
  destruct (Z.leb_spec 0 (- k)).
  - assert (k = 0) as -> by lia. cbn. rewrite !Z.mul_1_r. lia.
  - rewrite Z.opp_involutive, Z.div_mul by lia. lia.
Qed.

(** For a duration of whole seconds the float quotient is exact, and
    [int(total_seconds())] is the number of seconds. *)
Lemma int_total_seconds_of_whole_seconds d s us ms m h w t secs :
  Timedelta.new d s us ms m h w = Some t →
  Timedelta.whole_seconds t = Some secs →
  int_total_seconds (Some t) = Some secs.
Proof.
  intros Hnew Hwhole. apply new_Some_inv in Hnew as (Hs & _ & Hd & _).
  unfold Timedelta.whole_seconds in Hwhole.
  destruct (Z.eqb_spec (Timedelta.microseconds t) 0) as [Hus|]; [|done].
  injection Hwhole as <-. unfold int_total_seconds, Timedelta.total_microseconds.
  cbn [fmap option_fmap option_map]. rewrite Hus, Z.add_0_r.
  rewrite int_true_divide_exact; [done| |lia].
  change (2 ^ 53) with 9007199254740992. lia.
Qed.

Lemma site_settings_raises {E : Type} (furl_host : string → E + option string)
    (between : E + unit) (SITE_URL : string) (exc : E) :
  furl_host SITE_URL = inl exc →
  site_settings furl_host between SITE_URL = inl exc.
Proof. unfold site_settings. by intros ->. Qed.

Lemma site_settings_raises_later {E : Type}
    (furl_host : string → E + option string) (SITE_URL : string)
    (host : option string) (exc : E) :
  furl_host SITE_URL = inr host →
  site_settings furl_host (inl exc) SITE_URL = inl exc.
Proof. unfold site_settings. by intros ->. Qed.

Lemma site_settings_returns {E : Type} (furl_host : string → E + option string)
    (SITE_URL : string) (host : option string) :
  furl_host SITE_URL = inr host →
  site_settings furl_host (inr ()) SITE_URL =
    inr {| SITE_HOSTNAME := host;
           ALLOWED_HOSTS := [host; Some "localhost"%string; Some "127.0.0.1"%string];
           https := https_settings SITE_URL |}.
Proof. unfold site_settings. by intros ->. Qed.

(** X8: when [furl(SITE_URL)] raises, the import stops at line 46 and none
    of the HTTPS-only settings is bound, whatever the URL starts with; the
    same holds when a statement before line 266 raises. When the import
    reaches line 266, the six settings are bound all together or not at
    all: they are bound exactly when SITE_URL starts with the lower-case
    "https://", and then HSTS lasts 365 days of 86400 seconds; an "http://"
    or an upper-case "HTTPS://" URL, like the default one, binds none of
    them. *)
Theorem https_settings_all_or_nothing {E : Type}
    (furl_host : string → E + option string) (SITE_URL : string) :
  (∀ exc between, furl_host SITE_URL = inl exc →
     site_settings furl_host between SITE_URL = inl exc)
  ∧ (∀ host exc, furl_host SITE_URL = inr host →
     site_settings furl_host (inl exc) SITE_URL = inl exc)
  ∧ (∀ host, furl_host SITE_URL = inr host →
     ∃ st, site_settings furl_host (inr ()) SITE_URL = inr st
       ∧ SITE_HOSTNAME st = host
       ∧ ALLOWED_HOSTS st = [host; Some "localhost"%string; Some "127.0.0.1"%string]
       ∧ ((∃ rest, SITE_URL = "https://" +:+ rest) →
          https st =
            {| SECURE_SSL_REDIRECT := Some true;
               SECURE_HSTS_INCLUDE_SUBDOMAINS := Some true;
               SECURE_HSTS_PRELOAD := Some true;
               SECURE_HSTS_SECONDS := Some (365 * 86400);
               CSRF_COOKIE_SECURE := Some true;
               SESSION_COOKIE_SECURE := Some true |})
       ∧ ((¬ ∃ rest, SITE_URL = "https://" +:+ rest) →
          https st =
            {| SECURE_SSL_REDIRECT := None;
               SECURE_HSTS_INCLUDE_SUBDOMAINS := None;
               SECURE_HSTS_PRELOAD := None;
               SECURE_HSTS_SECONDS := None;
               CSRF_COOKIE_SECURE := None;
               SESSION_COOKIE_SECURE := None |})
       ∧ ((∃ rest, SITE_URL = "http://" +:+ rest ∨ SITE_URL = "HTTPS://" +:+ rest) →
          https st = https_settings SITE_URL_default
          ∧ SECURE_HSTS_SECONDS (https st) = None)).
Proof.
  split; [intros exc between; apply site_settings_raises|].
  split; [intros host exc; apply site_settings_raises_later|].
  intros host Hhost. eexists.
  split; [by apply site_settings_returns|]. cbn [SITE_HOSTNAME ALLOWED_HOSTS https].
  split; [done|]. split; [done|]. split; [|split].
  - intros H. apply prefix_spec in H. unfold https_settings. by rewrite H.
  - intros H. unfold https_settings.
    destruct (String.prefix "https://" SITE_URL) eqn:Hp; [|done].
    by apply prefix_spec in Hp.
  - by intros [rest [-> | ->]].
Qed.

Lemma https_settings_all_or_nothing_witness :
  site_settings example_furl_host (inr ()) "https://example.org:99999"
  = inl "ValueError"%string
  ∧ site_settings example_furl_host (inr ()) "https://treeherder.mozilla.org"
    = inr {| SITE_HOSTNAME := Some "treeherder.mozilla.org"%string;
             ALLOWED_HOSTS := [Some "treeherder.mozilla.org"%string;
                               Some "localhost"%string; Some "127.0.0.1"%string];
             https :=
               {| SECURE_SSL_REDIRECT := Some true;
                  SECURE_HSTS_INCLUDE_SUBDOMAINS := Some true;
                  SECURE_HSTS_PRELOAD := Some true;
                  SECURE_HSTS_SECONDS := Some 31536000;
                  CSRF_COOKIE_SECURE := Some true;
                  SESSION_COOKIE_SECURE := Some true |} |}
  ∧ ∃ st, site_settings example_furl_host (inr ()) SITE_URL_default = inr st
          ∧ SECURE_HSTS_SECONDS (https st) = None.
Proof.
  pose proof (https_settings_all_or_nothing example_furl_host
                "https://example.org:99999") as [Hexc _].
  pose proof (https_settings_all_or_nothing example_furl_host
                "https://treeherder.mozilla.org") as (_ & _ & Hhttps).
  pose proof (https_settings_all_or_nothing example_furl_host SITE_URL_default)
    as (_ & _ & Hdefault).
  split; [by apply Hexc|]. split.
  - destruct (Hhttps _ eq_refl) as (st & -> & Hhost & Hallowed & Hst & _).
    destruct st as [h a st]. cbn in *. rewrite Hhost, Hallowed, Hst; [done|].
    by exists "treeherder.mozilla.org"%string.
  - destruct (Hdefault _ eq_refl) as (st & -> & _ & _ & _ & _ & Hst).
    exists st. split; [done|]. apply Hst. exists "localhost:8000"%string. by left.
Defined.

End Https_facts.

Section Celery_facts.

(** X9: missing queues are not created, and none is needed: whatever the
    publication delay, every queue that an entry of the beat schedule sends
    to is declared in CELERY_TASK_QUEUES, as is the default queue; the
    declared queues have distinct names and all sit on the "default"
    exchange. *)
Theorem beat_schedule_queues_declared
    (delay : Z) (name : string) (entry : BeatEntry) :
  CELERY_BEAT_SCHEDULE delay !! name = Some entry →
  options_queue entry ∈ map queue_name CELERY_TASK_QUEUES
  ∧ CELERY_TASK_DEFAULT_QUEUE ∈ map queue_name CELERY_TASK_QUEUES
  ∧ NoDup (map queue_name CELERY_TASK_QUEUES)
  ∧ Forall (λ q, queue_exchange q = "default"%string) CELERY_TASK_QUEUES
  ∧ CELERY_TASK_CREATE_MISSING_QUEUES = false.
Proof.
  intros H. split; [|split; [|split; [|split]]].
  - unfold CELERY_BEAT_SCHEDULE in H.
    apply lookup_insert_Some in H as [[_ <-]|[_ H]].
    { apply (bool_decide_unpack _). by vm_compute. }
    apply lookup_insert_Some in H as [[_ <-]|[_ H]].
    { apply (bool_decide_unpack _). by vm_compute. }
    by rewrite lookup_empty in H.
  - apply (bool_decide_unpack _). by vm_compute.
  - apply (bool_decide_unpack _). by vm_compute.
  - unfold CELERY_TASK_QUEUES. by repeat constructor.
  - done.
Qed.

Lemma beat_schedule_queues_declared_witness :
  CELERY_BEAT_SCHEDULE CELERY_STATS_PUBLICATION_DELAY !! "publish_stats"%string
  = Some {| task := "publish-stats"; schedule := Crontab "*/5";
            relative := true; options_queue := "statsd" |}
  ∧ "statsd"%string ∈ map queue_name CELERY_TASK_QUEUES.
Proof.
  assert (H : CELERY_BEAT_SCHEDULE CELERY_STATS_PUBLICATION_DELAY
                !! "publish_stats"%string
              = Some {| task := "publish-stats"; schedule := Crontab "*/5";
                        relative := true; options_queue := "statsd" |}).
  { unfold CELERY_BEAT_SCHEDULE. by rewrite lookup_insert_eq. }
  split; [exact H|].
  exact (proj1 (beat_schedule_queues_declared _ _ _ H)).
Defined.

End Celery_facts.

Section User_agent_facts.
Import Re.

Lemma match_here_literal_then (p : string) (l : list atom) (s : string) :
  match_here (literal p ++ l) s = true ↔
  ∃ s', s = p +:+ s' ∧ match_here l s' = true.
Proof.
  unfold literal.
  revert s. induction p as [|a p IH]; intros s; cbn [String.list_ascii_of_string map app].
  - split; [eauto | by intros [s' [-> ?]]].
  - setoid_rewrite app_String.
    destruct s as [|b s]; cbn [match_here atom_matches].
    + split; [done | by intros [? [? _]]].
    + rewrite andb_true_iff, Ascii.eqb_eq, IH.
      split.
      * intros [-> [s' [-> ?]]]. by exists s'.
      * intros [s' [[= -> ->] ?]]. eauto.
Qed.

Lemma match_here_literal (p s : string) :
  match_here (literal p) s = true ↔ ∃ rest, s = p +:+ rest.
Proof.
  rewrite <- (app_nil_r (literal p)), match_here_literal_then.
  split; [intros [s' [-> _]]; eauto | intros [s' ->]; eauto].
Qed.

Lemma match_here_any (l : list atom) (s : string) :
  match_here (AnyChar :: l) s = true ↔
  ∃ c s', s = String c s' ∧ c ≠ newline ∧ match_here l s' = true.
Proof.
  destruct s as [|c s]; cbn.
  - split; [done | by intros (? & ? & ? & _)].
  - rewrite andb_true_iff, negb_true_iff, Ascii.eqb_neq. split.
    + intros [? ?]. eauto.
    + intros (c' & s' & [= -> ->] & ? & ?). done.
Qed.

(** The five patterns, as the matcher sees them. *)
Lemma disallowed_user_agent_unfold (ua : string) :
  disallowed_user_agent ua =
    match_here (literal "Go-http-client/") ua
    || (match_here (literal "Go 1" ++ AnyChar :: literal "1 package http") ua
    || (match_here (literal "libcurl/") ua
    || (match_here (literal "Python-urllib/") ua
    || (match_here (literal "python-requests/") ua || false)))).
Proof. reflexivity. Qed.

Lemma go_package_pattern_iff (ua : string) :
  match_here (literal "Go 1" ++ AnyChar :: literal "1 package http") ua = true ↔
  ∃ c rest, c ≠ newline ∧ ua = "Go 1" +:+ String c ("1 package http" +:+ rest).
Proof.
  rewrite match_here_literal_then. split.
  - intros (s' & -> & H).
    apply match_here_any in H as (c & s'' & -> & Hc & H).
    apply match_here_literal in H as [rest ->]. eauto.
  - intros (c & rest & Hc & ->). eexists. split; [reflexivity|].
    apply match_here_any. do 2 eexists. split; [reflexivity|]. split; [done|].
    apply match_here_literal. eauto.
Qed.

(** X10: all five patterns compile, and a user agent is disallowed exactly
    when it starts with "Go-http-client/", "libcurl/", "Python-urllib/" or
    "python-requests/", or with "Go 1?1 package http" where the unescaped dot
    of the pattern stands for any one character but a newline. *)
Theorem disallowed_user_agent_iff (ua : string) :
  (length <$> DISALLOWED_USER_AGENTS = Some 5%nat)
  ∧ (disallowed_user_agent ua = true ↔
       (∃ rest, ua = "Go-http-client/" +:+ rest)
       ∨ (∃ c rest, c ≠ newline
                    ∧ ua = "Go 1" +:+ String c ("1 package http" +:+ rest))
       ∨ (∃ rest, ua = "libcurl/" +:+ rest)
       ∨ (∃ rest, ua = "Python-urllib/" +:+ rest)
       ∨ (∃ rest, ua = "python-requests/" +:+ rest)).
Proof.
  split; [reflexivity|].
  rewrite disallowed_user_agent_unfold, !orb_true_iff.
  rewrite go_package_pattern_iff, !match_here_literal.
  intuition discriminate.
Qed.

(** X11: what the patterns never block. They are anchored and
    case-sensitive: no user agent is disallowed unless its first character is
    one of G, l, P and p, so the empty one and the command line curl's
    "curl/..." pass, as do "python-urllib/..." and "Python-requests/...",
    and a disallowed name further inside the header does not count. *)
Theorem disallowed_user_agent_never :
  (∀ (c : ascii) (rest : string),
     c ≠ "G"%char → c ≠ "l"%char → c ≠ "P"%char → c ≠ "p"%char →
     disallowed_user_agent (String c rest) = false)
  ∧ disallowed_user_agent "" = false
  ∧ (∀ rest, disallowed_user_agent ("curl/" +:+ rest) = false)
  ∧ (∀ rest, disallowed_user_agent ("python-urllib/" +:+ rest) = false)
  ∧ (∀ rest, disallowed_user_agent ("Python-requests/" +:+ rest) = false)
  ∧ (∀ rest, disallowed_user_agent ("Mozilla/5.0 libcurl/" +:+ rest) = false).
Proof.
  split; [|by repeat split].
  intros c rest HG Hl HP Hp.
  destruct (disallowed_user_agent (String c rest)) eqn:Hd; [exfalso|done].
  rewrite disallowed_user_agent_unfold, !orb_true_iff in Hd.
  rewrite go_package_pattern_iff, !match_here_literal in Hd.
  destruct Hd as [[r H]|[(c' & r & _ & H)|[[r H]|[[r H]|[[r H]|H]]]]];
    try discriminate H;
    rewrite app_String in H; injection H as -> _; done.
Qed.

End User_agent_facts.

Section Logging_facts.
Variable LOGGING_LEVEL : string.

Local Ltac in_literal H :=
  vm_compute in H;
  repeat (apply elem_of_cons in H as [H|H]);
  [.. | by apply elem_of_nil in H].

(** X12: whatever LOGGING_LEVEL is, the logging configuration is closed:
    every handler and filter that a logger names, and the formatter that each
    handler names, is defined in its section, and every logger has a handler.
    Only the "treeherder" logger depends on the level: it takes it as its own
    and stops propagating exactly when the level is "WARNING". *)
Theorem logging_references_resolve :
  (∀ name logger h,
     (name, logger) ∈ items (logging_section LOGGING_LEVEL "loggers") →
     h ∈ names_under "handlers" logger →
     is_Some (item h (logging_section LOGGING_LEVEL "handlers")))
  ∧ (∀ name logger f,
       (name, logger) ∈ items (logging_section LOGGING_LEVEL "loggers") →
       f ∈ names_under "filters" logger →
       is_Some (item f (logging_section LOGGING_LEVEL "filters")))
  ∧ (∀ name handler,
       (name, handler) ∈ items (logging_section LOGGING_LEVEL "handlers") →
       ∃ f, item "formatter" handler = Some (PStr f)
            ∧ is_Some (item f (logging_section LOGGING_LEVEL "formatters")))
  ∧ (∀ name logger,
       (name, logger) ∈ items (logging_section LOGGING_LEVEL "loggers") →
       names_under "handlers" logger ≠ [])
  ∧ (∃ logger,
       item "treeherder" (logging_section LOGGING_LEVEL "loggers") = Some logger
       ∧ item "level" logger = Some (PStr LOGGING_LEVEL)
       ∧ (item "propagate" logger = Some (PBool false)
          ↔ LOGGING_LEVEL = "WARNING"%string)).
Proof.
  split; [|split; [|split; [|split]]].
  - intros name logger h Hl Hh.
    in_literal Hl; injection Hl as -> ->; in_literal Hh; subst h; by eexists.
  - intros name logger f Hl Hf.
    in_literal Hl; injection Hl as -> ->; in_literal Hf; subst f; by eexists.
  - intros name handler Hh.
    in_literal Hh; injection Hh as -> ->; eexists; (split; [reflexivity|]);
      by eexists.
  - intros name logger Hl.
    in_literal Hl; injection Hl as -> ->; discriminate.
  - eexists. split; [reflexivity|]. split; [reflexivity|].
    cbn. split.
    + intros [= H]. apply negb_false_iff in H. by apply String.eqb_eq in H.
    + intros ->. reflexivity.
Qed.

End Logging_facts.

Section Path_facts.
Import PosixPath.

Lemma append_assoc (a b c : string) : (a +:+ b) +:+ c = a +:+ b +:+ c.
Proof.
  induction a as [|x a IH]; [done|].
  by rewrite !app_String, IH.
Qed.

Lemma app_sep_not_empty (a b : string) : a +:+ String "/" b ≠ "".
Proof. by destruct a. Qed.

(** The path up to the last separator, when the last component has none. *)
Lemma upto_last_sep_component (a name : string) :
  upto_last_sep name = "" →
  upto_last_sep (a +:+ "/" +:+ name) = a +:+ "/".
Proof.
  intros Hname. induction a as [|c a IH].
  - change ("" +:+ "/" +:+ name) with (String "/" name).
    cbn. by rewrite Hname.
  - change (String c a +:+ "/" +:+ name) with (String c (a +:+ "/" +:+ name)).
    cbn [upto_last_sep]. rewrite IH, (app_String c a "/").
    destruct (a +:+ "/") eqn:Ha; [|done].
    by apply app_sep_not_empty in Ha.
Qed.

Lemma rstrip_sep_app_sep (a : string) : rstrip_sep (a +:+ "/") = rstrip_sep a.
Proof.
  induction a as [|c a IH]; [done|].
  rewrite app_String. cbn [rstrip_sep]. by rewrite IH.
Qed.

Lemma rstrip_sep_clean (a : string) : endswith_sep a = false → rstrip_sep a = a.
Proof.
  induction a as [|c a IH]; [done|].
  destruct a as [|c' a].
  - cbn. by intros ->.
  - intros H. change (endswith_sep (String c' a) = false) in H.
    cbn [rstrip_sep] in *. by rewrite (IH H).
Qed.

Lemma all_sep_app_sep (a : string) : all_sep (a +:+ "/") = all_sep a.
Proof.
  induction a as [|c a IH]; [done|].
  rewrite app_String. cbn [all_sep]. by rewrite IH.
Qed.

Lemma all_sep_clean (a : string) :
  a ≠ "" → endswith_sep a = false → all_sep a = false.
Proof.
  induction a as [|c a IH]; [done|]. intros _.
  destruct a as [|c' a].
  - cbn. intros ->. done.
  - intros H. change (endswith_sep (String c' a) = false) in H.
    cbn [all_sep] in *. rewrite IH by done. apply andb_false_r.
Qed.

Lemma endswith_sep_app (a b : string) :
  b ≠ "" → endswith_sep (a +:+ b) = endswith_sep b.
Proof.
  intros Hb. induction a as [|c a IH]; [done|].
  rewrite app_String. destruct (a +:+ b) eqn:Hab.
  - destruct a; [by destruct (Hb Hab) | discriminate Hab].
  - by rewrite <- IH.
Qed.

(** [dirname] undoes [join] with a last component. *)
Lemma dirname_component (a name : string) :
  a ≠ "" → endswith_sep a = false → upto_last_sep name = "" →
  dirname (a +:+ "/" +:+ name) = a.
Proof.
  intros Ha Hclean Hname. unfold dirname.
  rewrite (upto_last_sep_component _ _ Hname).
  rewrite all_sep_app_sep, (all_sep_clean _ Ha Hclean).
  assert (str_truthy (a +:+ "/") = true) as -> by (by destruct a).
  cbn [andb negb]. by rewrite rstrip_sep_app_sep, rstrip_sep_clean.
Qed.

Lemma join_component (a name : string) :
  a ≠ "" → endswith_sep a = false → String.prefix "/" name = false →
  join a name = a +:+ "/" +:+ name.
Proof.
  intros Ha Hclean Hname. unfold join. rewrite Hname, Hclean.
  by destruct a.
Qed.

(** X13: with POSIX paths, for a checkout at [root] (a non-empty path that
    does not end in a slash), SRC_DIR and BASE_DIR are [root], three levels
    above the settings file; STATIC_ROOT and WHITENOISE_ROOT are two different
    direct children of it, and the template directory is WHITENOISE_ROOT. *)
Theorem source_directories (root : string) :
  root ≠ "" → endswith_sep root = false →
  SRC_DIR (root +:+ "/treeherder/config/settings.py") = root
  ∧ BASE_DIR (root +:+ "/treeherder/config/settings.py") = root
  ∧ STATIC_ROOT (root +:+ "/treeherder/config/settings.py")
    = root +:+ "/.django-static"
  ∧ WHITENOISE_ROOT (root +:+ "/treeherder/config/settings.py")
    = root +:+ "/.build"
  ∧ TEMPLATES_DIRS (root +:+ "/treeherder/config/settings.py")
    = [root +:+ "/.build"]
  ∧ dirname (STATIC_ROOT (root +:+ "/treeherder/config/settings.py")) = root
  ∧ dirname (WHITENOISE_ROOT (root +:+ "/treeherder/config/settings.py")) = root
  ∧ STATIC_ROOT (root +:+ "/treeherder/config/settings.py")
    ≠ WHITENOISE_ROOT (root +:+ "/treeherder/config/settings.py").
Proof.
  intros Hroot Hclean.
  assert (Hsrc : SRC_DIR (root +:+ "/treeherder/config/settings.py") = root).
  { unfold SRC_DIR.
    assert (root +:+ "/treeherder/config/settings.py"
            = (root +:+ "/treeherder/config") +:+ "/" +:+ "settings.py") as ->
      by (by rewrite append_assoc).
    rewrite dirname_component;
      [| by destruct root | by rewrite endswith_sep_app | done].
    assert (root +:+ "/treeherder/config"
            = (root +:+ "/treeherder") +:+ "/" +:+ "config") as ->
      by (by rewrite append_assoc).
    rewrite dirname_component;
      [| by destruct root | by rewrite endswith_sep_app | done].
    by apply dirname_component. }
  unfold BASE_DIR, TEMPLATES_DIRS, STATIC_ROOT, WHITENOISE_ROOT.
  rewrite Hsrc, !join_component by done.
  repeat split; try done.
  - by apply dirname_component.
  - by apply dirname_component.
  - intros H. by apply (inj (String.append root)) in H.
Qed.

(** A checkout at the file system root, and the edge cases of [dirname]. *)
Example source_directories_at_root :
  SRC_DIR "/treeherder/config/settings.py" = "/"%string
  ∧ WHITENOISE_ROOT "/treeherder/config/settings.py" = "/.build"%string
  ∧ dirname "settings.py" = ""%string
  ∧ dirname "//settings.py" = "//"%string
  ∧ dirname "/app//config/" = "/app//config"%string.
Proof. by vm_compute. Qed.

Lemma source_directories_witness :
  ("/app"%string ≠ ""%string ∧ endswith_sep "/app" = false)
  ∧ SRC_DIR ("/app" +:+ "/treeherder/config/settings.py") = "/app"%string.
Proof.
  assert (H1 : "/app"%string ≠ ""%string) by discriminate.
  assert (H2 : endswith_sep "/app" = false) by reflexivity.
  split; [by split|].
  exact (proj1 (source_directories "/app" H1 H2)).
Defined.

End Path_facts.
